(** * Probe-graph construction of charge-density-models (src/cdm/chg_utils.py)

    A shallow embedding of [ProbeGraphAdder], [AseNeighborListWrapper],
    [RadiusGraphPBCWrapper], [calculate_grid_pos] and [build_charge_lmdb],
    and the properties of the probe-graph engine stated over it.

    Conventions of the embedding.
    - Python numbers and double-precision arrays (numpy, ase) are read as the
      rationals they hold ([Q]), with exact arithmetic.  Single-precision
      tensors ([torch.FloatTensor]) are values of a [TorchFloat] kernel, with
      their rounding; [binary32] is the kernel the concrete runs use.
    - Integer tensors are [nat] (indices, counts) or [Z] (species, cell
      translations).  The radius graph keeps its site indices and cell
      translations in FloatTensors, which hold integers below 2^24 exactly;
      they are embedded as the integers themselves.
    - A tensor of shape (n,3) is a list of triples; the (2,E) edge index is
      kept as the list of its E columns.
    - Python exceptions are the [Raise] branch of [result].
    - Host records live in a store ([gmap loc HostRecord]); the assembler
      receives and returns a reference into it. *)

From Stdlib Require Import ZArith QArith Qround List Lia Lqa String Bool SpecFloat.
From stdpp Require Import gmap strings pretty.
Import ListNotations.

Set Default Proof Using "Type".

(** ** Exceptions and fallible computations *)

Inductive exn : Type :=
| AssertionError
| NotImplementedError
| UnboundLocalError
| ValueError
| IndexError
| OverflowError
| RuntimeError
| ReferenceError.

Inductive result (A : Type) : Type :=
| Ok (a : A)
| Raise (e : exn).

Arguments Ok {A} a.
Arguments Raise {A} e.

Definition rbind {A B : Type} (r : result A) (k : A -> result B) : result B :=
  match r with
  | Ok a => k a
  | Raise e => Raise e
  end.

Notation "'let!' x ':=' r 'in' k" := (rbind r (fun x => k))
  (at level 10, x pattern, r at level 100, k at level 200).

(** ** Vectors, cells and the numpy/torch helpers the source uses *)

Definition vec3 : Type := (Q * Q * Q)%type.
Definition ivec3 : Type := (Z * Z * Z)%type.
(** The cell matrix, as its three rows [cell[0]], [cell[1]], [cell[2]]. *)
Definition mat3 : Type := (vec3 * vec3 * vec3)%type.

Definition vadd (a b : vec3) : vec3 :=
  let '(a0, a1, a2) := a in let '(b0, b1, b2) := b in
  (a0 + b0, a1 + b1, a2 + b2)%Q.

Definition vsub (a b : vec3) : vec3 :=
  let '(a0, a1, a2) := a in let '(b0, b1, b2) := b in
  (a0 - b0, a1 - b1, a2 - b2)%Q.

Definition vdiv (a : vec3) (s : Q) : vec3 :=
  let '(a0, a1, a2) := a in (a0 / s, a1 / s, a2 / s)%Q.

Definition dot (a b : vec3) : Q :=
  let '(a0, a1, a2) := a in let '(b0, b1, b2) := b in
  (a0 * b0 + a1 * b1 + a2 * b2)%Q.

(** [torch.cross(a, b, dim=-1)] *)
Definition cross (a b : vec3) : vec3 :=
  let '(a0, a1, a2) := a in let '(b0, b1, b2) := b in
  (a1 * b2 - a2 * b1, a2 * b0 - a0 * b2, a0 * b1 - a1 * b0)%Q.

(** [torch.sum(v ** 2, dim=1)] *)
Definition sum_sqr (v : vec3) : Q :=
  let '(v0, v1, v2) := v in (v0 * v0 + v1 * v1 + v2 * v2)%Q.

Definition ineg (u : ivec3) : ivec3 :=
  let '(u0, u1, u2) := u in (- u0, - u1, - u2)%Z.

Definition to_vec (u : ivec3) : vec3 :=
  let '(u0, u1, u2) := u in (inject_Z u0, inject_Z u1, inject_Z u2).

(** Row vector times matrix, [v . cell]: [np.dot(frac, cell)] and, for a
    column of cell translations, [torch.bmm(transpose(cell), unit_cell)]. *)
Definition vecmat (v : vec3) (cell : mat3) : vec3 :=
  let '(v0, v1, v2) := v in
  let '(r0, r1, r2) := cell in
  let '(c00, c01, c02) := r0 in
  let '(c10, c11, c12) := r1 in
  let '(c20, c21, c22) := r2 in
  (v0 * c00 + v1 * c10 + v2 * c20,
   v0 * c01 + v1 * c11 + v2 * c21,
   v0 * c02 + v1 * c12 + v2 * c22)%Q.

(** Boolean-mask indexing [a[mask]] / [torch.masked_select]. *)
Fixpoint select {A : Type} (mask : list bool) (l : list A) : list A :=
  match mask, l with
  | b :: mask', x :: l' => if b then x :: select mask' l' else select mask' l'
  | _, _ => []
  end.

(** [np.repeat(a, repeats=n, axis=0)] and [t.view(-1,1).repeat(1,n).view(-1)]:
    every element n times in a row. *)
Definition np_repeat {A : Type} (n : nat) (l : list A) : list A :=
  flat_map (fun x => repeat x n) l.

(** [np.tile(a, reps=k)] and [t.repeat(k,1,1)] on the leading axis:
    the whole list k times. *)
Definition np_tile {A : Type} (k : nat) (l : list A) : list A :=
  concat (repeat l k).

(** Element-wise binary operation on two tensors of one shape. *)
Definition map2 {A B C : Type} (f : A -> B -> C) (l : list A) (m : list B) : list C :=
  map (fun p => f (fst p) (snd p)) (combine l m).

(** The integers lo, lo + 1, ..., hi - 1. *)
Definition int_range (lo hi : Z) : list Z :=
  map (fun k => (lo + Z.of_nat k)%Z) (seq 0 (Z.to_nat (hi - lo))).

(** [torch.arange(lo, hi)] for bounds that hold integers: an upper bound
    below the lower one is refused. *)
Definition torch_arange (lo hi : Z) : result (list Z) :=
  if (hi <? lo)%Z then Raise RuntimeError else Ok (int_range lo hi).

(** [torch.cartesian_prod(a, b, c)]: first factor slowest. *)
Definition cartesian_prod (a b c : list Z) : list ivec3 :=
  flat_map (fun x => flat_map (fun y => map (fun z => (x, y, z)) c) b) a.

(** The ceiling of [radius * sqrt(v.v)] in exact arithmetic (used by the
    model of the ase neighbour list below).  For [radius >= 0] this is the
    least [n >= 0] with [radius^2 * v.v <= n^2]; for [radius < 0] it is minus
    the integer part of [sqrt(radius^2 * v.v)]. *)
Definition ceil_radius_norm (radius : Q) (v : vec3) : Z :=
  let q := (radius * radius * sum_sqr v)%Q in
  if Qle_bool 0 radius then Z.sqrt_up (Qceiling q) else (- Z.sqrt (Qfloor q))%Z.

(** ** ase.Atoms, as far as the source queries it *)

Record Atoms : Type := mkAtoms {
  atoms_sites : list (Z * vec3);      (* atomic number and position per site *)
  atoms_cell : mat3;
  atoms_pbc : bool * bool * bool
}.

Definition get_atomic_numbers (a : Atoms) : list Z := map fst (atoms_sites a).
Definition get_positions (a : Atoms) : list vec3 := map snd (atoms_sites a).
Definition get_cell (a : Atoms) : mat3 := atoms_cell a.
Definition get_pbc (a : Atoms) : bool * bool * bool := atoms_pbc a.

Definition zero_cell : mat3 := ((0, 0, 0), (0, 0, 0), (0, 0, 0))%Q.

(** [Atoms(numbers=..., positions=..., cell=..., pbc=...)]; the two per-site
    arrays must have one length. *)
Definition Atoms_new (numbers : list Z) (positions : list vec3)
    (cell : mat3) (pbc : bool * bool * bool) : result Atoms :=
  if Nat.eqb (length numbers) (length positions)
  then Ok (mkAtoms (combine numbers positions) cell pbc)
  else Raise ValueError.

(** [a.copy(); a.extend(b)]: sites appended, cell and pbc of [a] kept. *)
Definition Atoms_extend (a b : Atoms) : Atoms :=
  mkAtoms (atoms_sites a ++ atoms_sites b) (atoms_cell a) (atoms_pbc a).

(** ** Single-precision tensors

    The kernels of the torch library are external to src/.  The radius graph
    is embedded over an arbitrary implementation [TorchFloat] of the
    operations it calls on FloatTensors; nothing is assumed of them. *)

Class TorchFloat : Type := mkTorchFloat {
  float : Type;
  (** [torch.FloatTensor(a)], for one entry of a double-precision array *)
  FloatTensor : Q -> float;
  (** [x + y], [x - y], [x * y], [x / y] and [x ** 2], entry by entry *)
  torch_add : float -> float -> float;
  torch_sub : float -> float -> float;
  torch_mul : float -> float -> float;
  torch_div : float -> float -> float;
  torch_square : float -> float;
  (** [torch.cross(a, b, dim=-1)] *)
  torch_cross : float * float * float -> float * float * float -> float * float * float;
  (** [torch.sum(v, dim)] along an axis of length 3 *)
  torch_sum : float * float * float -> float;
  (** [torch.norm(v, p=2, dim=-1)] *)
  torch_norm : float * float * float -> float;
  (** [torch.bmm(m, u)] for a 3x3 matrix, given by its rows, and one column *)
  torch_bmm : (float * float * float) * (float * float * float) * (float * float * float)
              -> float * float * float -> float * float * float;
  (** [s * x] for a Python number [s] *)
  torch_scalar_mul : Q -> float -> float;
  (** [torch.ceil(x)], as the integer it holds; [None] for an infinity or a NaN *)
  torch_ceil : float -> option Z;
  (** [torch.le(x, s)] and [torch.gt(x, s)] for a Python number [s] *)
  torch_le : float -> Q -> bool;
  torch_gt : float -> Q -> bool
}.

(** The IEEE binary32 value nearest to a rational, ties to even. *)
Definition binary32_of_Q (q : Q) : spec_float :=
  let round (s : bool) (n : positive) :=
    let '(m, e, l) := SFdiv_core_binary 24 128 (Zpos n) 0 (Zpos (Qden q)) 0 in
    binary_round_aux 24 128 s m e l in
  match Qnum q with
  | Z0 => S754_zero false
  | Zpos n => round false n
  | Zneg n => round true n
  end.

(** The least integer not below a finite binary32 value. *)
Definition binary32_ceil (x : spec_float) : option Z :=
  match x with
  | S754_zero _ => Some 0%Z
  | S754_finite s m e =>
      Some match e with
           | Zneg p => if s then (- (Zpos m / 2 ^ Zpos p))%Z
                       else ((Zpos m + 2 ^ Zpos p - 1) / 2 ^ Zpos p)%Z
           | _ => ((if s then Zneg m else Zpos m) * 2 ^ e)%Z
           end
  | _ => None
  end.

(** The rational a finite binary32 value holds. *)
Definition Q_of_binary32 (x : spec_float) : option Q :=
  match x with
  | S754_zero _ => Some 0%Q
  | S754_finite s m e =>
      let v := match e with
               | Zneg p => Zpos m # (2 ^ p)
               | _ => inject_Z (Zpos m * 2 ^ e)
               end in
      Some (if s then - v else v)%Q
  | _ => None
  end.

(** The kernel of the concrete runs: IEEE binary32 with round to nearest
    even, every operation rounded once, sums and products taken left to
    right, a Python number converted before it is used. *)
#[global] Instance binary32 : TorchFloat := {
  float := spec_float;
  FloatTensor := binary32_of_Q;
  torch_add := SFadd 24 128;
  torch_sub := SFsub 24 128;
  torch_mul := SFmul 24 128;
  torch_div := SFdiv 24 128;
  torch_square := fun x => SFmul 24 128 x x;
  torch_cross := fun a b =>
    let '(a0, a1, a2) := a in let '(b0, b1, b2) := b in
    (SFsub 24 128 (SFmul 24 128 a1 b2) (SFmul 24 128 a2 b1),
     SFsub 24 128 (SFmul 24 128 a2 b0) (SFmul 24 128 a0 b2),
     SFsub 24 128 (SFmul 24 128 a0 b1) (SFmul 24 128 a1 b0));
  torch_sum := fun v =>
    let '(v0, v1, v2) := v in SFadd 24 128 (SFadd 24 128 v0 v1) v2;
  torch_norm := fun v =>
    let '(v0, v1, v2) := v in
    SFsqrt 24 128 (SFadd 24 128 (SFadd 24 128 (SFmul 24 128 v0 v0) (SFmul 24 128 v1 v1))
                                (SFmul 24 128 v2 v2));
  torch_bmm := fun m u =>
    let '(u0, u1, u2) := u in
    let row (r : spec_float * spec_float * spec_float) :=
      let '(r0, r1, r2) := r in
      SFadd 24 128 (SFadd 24 128 (SFmul 24 128 r0 u0) (SFmul 24 128 r1 u1))
                   (SFmul 24 128 r2 u2) in
    let '(m0, m1, m2) := m in (row m0, row m1, row m2);
  torch_scalar_mul := fun s x => SFmul 24 128 (binary32_of_Q s) x;
  torch_ceil := binary32_ceil;
  torch_le := fun x s => SFleb x (binary32_of_Q s);
  torch_gt := fun x s => SFltb (binary32_of_Q s) x
}.

(** ** RadiusGraphPBCWrapper *)

Record RadiusGraphPBCWrapper : Type := mkRGPBC {
  rg_cutoff : Q;
  rg_edge_index : list (nat * nat);
  rg_offsets : list ivec3
}.

(** The squared-distance threshold of [mask_not_same]. *)
Definition epsilon : Q := 1 # 10000.

(** The constructor's default for its [pbc] argument. *)
Definition rg_default_pbc : bool * bool * bool := (true, true, false).

(** [torch.arange(-rep, rep + 1, dtype=torch.float)]: the bounds must be
    finite. *)
Definition cells_per_dim (rep : option Z) : result (list Z) :=
  match rep with
  | Some rep => torch_arange (- rep) (rep + 1)
  | None => Raise RuntimeError
  end.

Section RadiusGraph.
Context {K : TorchFloat}.

Definition fvec3 : Type := (float * float * float)%type.
Definition fmat3 : Type := (fvec3 * fvec3 * fvec3)%type.

(** [torch.FloatTensor] of a row of three, and of the cell. *)
Definition FloatTensor3 (v : vec3) : fvec3 :=
  let '(v0, v1, v2) := v in (FloatTensor v0, FloatTensor v1, FloatTensor v2).

Definition FloatTensor33 (m : mat3) : fmat3 :=
  let '(m0, m1, m2) := m in (FloatTensor3 m0, FloatTensor3 m1, FloatTensor3 m2).

Definition fadd3 (a b : fvec3) : fvec3 :=
  let '(a0, a1, a2) := a in let '(b0, b1, b2) := b in
  (torch_add a0 b0, torch_add a1 b1, torch_add a2 b2).

Definition fsub3 (a b : fvec3) : fvec3 :=
  let '(a0, a1, a2) := a in let '(b0, b1, b2) := b in
  (torch_sub a0 b0, torch_sub a1 b1, torch_sub a2 b2).

Definition fmul3 (a b : fvec3) : fvec3 :=
  let '(a0, a1, a2) := a in let '(b0, b1, b2) := b in
  (torch_mul a0 b0, torch_mul a1 b1, torch_mul a2 b2).

Definition fdiv3 (a : fvec3) (s : float) : fvec3 :=
  let '(a0, a1, a2) := a in (torch_div a0 s, torch_div a1 s, torch_div a2 s).

Definition fsquare3 (a : fvec3) : fvec3 :=
  let '(a0, a1, a2) := a in (torch_square a0, torch_square a1, torch_square a2).

(** [torch.transpose(cell, 1, 2)] *)
Definition transpose (m : fmat3) : fmat3 :=
  let '(r0, r1, r2) := m in
  let '(m00, m01, m02) := r0 in
  let '(m10, m11, m12) := r1 in
  let '(m20, m21, m22) := r2 in
  ((m00, m10, m20), (m01, m11, m21), (m02, m12, m22)).

(** One [if pbc[k]: ... else: ...] block of the constructor:
    [torch.ceil(radius * torch.norm(c / cell_vol))] along a periodic axis,
    zero along a non-periodic one. *)
Definition replications (periodic : bool) (radius : Q) (c : fvec3) (cell_vol : float)
    : option Z :=
  if periodic then
    let inv_min_dist := torch_norm (fdiv3 c cell_vol) in
    torch_ceil (torch_scalar_mul radius inv_min_dist)
  else Some 0%Z.

Definition RadiusGraphPBCWrapper_init (radius : Q) (atoms : Atoms)
    (pbc : bool * bool * bool) : result RadiusGraphPBCWrapper :=
  let is_probe := map (Z.eqb 0) (get_atomic_numbers atoms) in
  let not_probe := map negb is_probe in
  let atom_pos := select not_probe (get_positions atoms) in
  let probe_pos := select is_probe (get_positions atoms) in
  let cell := FloatTensor33 (get_cell atoms) in
  let '(cell0, cell1, cell2) := cell in
  let num_atoms := length atom_pos in
  let num_probes := length probe_pos in
  let num_total := num_atoms + num_probes in
  let num_combos := num_atoms * num_probes in
  let indices := seq 0 num_total in
  let index1 := np_repeat num_probes (select not_probe indices) in
  let index2 := np_tile num_atoms (select is_probe indices) in
  let pos1 := map FloatTensor3 (np_repeat num_probes atom_pos) in
  let pos2 := map FloatTensor3 (np_tile num_atoms probe_pos) in
  let cross_a2a3 := torch_cross cell1 cell2 in
  let cell_vol := torch_sum (fmul3 cell0 cross_a2a3) in
  let '(pbc0, pbc1, pbc2) := pbc in
  let rep_a1 := replications pbc0 radius cross_a2a3 cell_vol in
  let rep_a2 := replications pbc1 radius (torch_cross cell2 cell0) cell_vol in
  let rep_a3 := replications pbc2 radius (torch_cross cell0 cell1) cell_vol in
  let! cells1 := cells_per_dim rep_a1 in
  let! cells2 := cells_per_dim rep_a2 in
  let! cells3 := cells_per_dim rep_a3 in
  let unit_cell := cartesian_prod cells1 cells2 cells3 in
  let num_cells := length unit_cell in
  let unit_cell_per_atom := np_tile (length index2) unit_cell in
  let data_cell := transpose cell in
  let pbc_offsets :=
    map (fun u => torch_bmm data_cell (FloatTensor3 (to_vec u))) unit_cell in
  let pbc_offsets_per_atom := np_tile num_combos pbc_offsets in
  let pos1 := np_repeat num_cells pos1 in
  let pos2 := np_repeat num_cells pos2 in
  let index1 := np_repeat num_cells index1 in
  let index2 := np_repeat num_cells index2 in
  let pos2 := map2 fadd3 pos2 pbc_offsets_per_atom in
  let atom_distance_sqr :=
    map2 (fun a b => torch_sum (fsquare3 (fsub3 a b))) pos1 pos2 in
  let mask_within_radius :=
    map (fun d => torch_le d (radius * radius)) atom_distance_sqr in
  let mask_not_same := map (fun d => torch_gt d epsilon) atom_distance_sqr in
  let mask := map2 andb mask_within_radius mask_not_same in
  let index1 := select mask index1 in
  let index2 := select mask index2 in
  let unit_cell := select mask unit_cell_per_atom in
  Ok (mkRGPBC radius (combine index1 index2) (map ineg unit_cell)).
End RadiusGraph.

Definition RadiusGraphPBCWrapper_get_all_neighbors (self : RadiusGraphPBCWrapper)
    (cutoff : Q) (include_atomic_edges : bool)
    : result (list (nat * nat) * list ivec3) :=
  if Qeq_bool cutoff (rg_cutoff self)
  then Ok (rg_edge_index self, rg_offsets self)
  else Raise AssertionError.

(** ** AseNeighborListWrapper

    [ase.neighborlist] is an external library.  The wrapper is embedded over
    an arbitrary neighbour list [nbl]: [nbl cutoff pbc cell positions i] is
    what [NewPrimitiveNeighborList(cutoff, skin=0.0, self_interaction=False,
    bothways=True)], built on [(pbc, cell, positions)], answers to
    [get_neighbors(i)].  The two parallel arrays of the answer (indices,
    offsets) are kept as one list of (index, offset) entries. *)

Definition neighbor_list : Type :=
  Q -> bool * bool * bool -> mat3 -> list vec3 -> nat -> list (nat * ivec3).

Record AseNeighborListWrapper : Type := mkAse {
  ase_neighborlist : nat -> list (nat * ivec3);
  ase_cutoff : Q;
  ase_atoms_positions : list vec3;
  ase_atoms_cell : mat3;
  ase_num_atoms : nat;
  ase_atomic_numbers : list Z
}.

(** Integer-array indexing [a[idx]]; an index past the end raises. *)
Fixpoint np_take {A : Type} (a : list A) (idx : list nat) : result (list A) :=
  match idx with
  | [] => Ok []
  | i :: idx' =>
      match nth_error a i with
      | Some x => let! xs := np_take a idx' in Ok (x :: xs)
      | None => Raise IndexError
      end
  end.

Section AseWrapper.
Variable nbl : neighbor_list.

Definition AseNeighborListWrapper_init (cutoff : Q) (atoms : Atoms)
    : AseNeighborListWrapper :=
  let is_probe := map (Z.eqb 0) (get_atomic_numbers atoms) in
  mkAse (nbl cutoff (get_pbc atoms) (get_cell atoms) (get_positions atoms))
        cutoff
        (get_positions atoms)
        (get_cell atoms)
        (length (select (map negb is_probe) (get_positions atoms)))
        (get_atomic_numbers atoms).

Definition AseNeighborListWrapper_get_neighbors (self : AseNeighborListWrapper)
    (i : nat) (cutoff : Q) : result (list (nat * ivec3)) :=
  if Qeq_bool cutoff (ase_cutoff self)
  then
    let entries := ase_neighborlist self i in
    (* Sign change required due to differing conventions in ASE and OCP *)
    Ok (map (fun e => (fst e, ineg (snd e))) entries)
  else Raise AssertionError.

(** The body of the [for i, (neigh_idx, neigh_offset) in enumerate(results)]
    loop, for the results from position [i] on. *)
Fixpoint ase_collect (self : AseNeighborListWrapper) (include_atomic_edges : bool)
    (i : nat) (results : list (list (nat * ivec3)))
    : result (list (list (nat * nat)) * list (list ivec3)) :=
  match results with
  | [] => Ok ([], [])
  | entries :: results' =>
      let! kept :=
        if negb include_atomic_edges then
          let! neigh_atomic_species :=
            np_take (ase_atomic_numbers self) (map fst entries) in
          let neigh_is_probe := map (Z.eqb 0) neigh_atomic_species in
          Ok (select neigh_is_probe entries)
        else Ok entries in
      let edges := map (fun e => (i, fst e)) kept in
      let! (probe_edges, probe_offsets) :=
        ase_collect self include_atomic_edges (S i) results' in
      Ok (edges :: probe_edges, map snd kept :: probe_offsets)
  end.

Definition AseNeighborListWrapper_get_all_neighbors (self : AseNeighborListWrapper)
    (cutoff : Q) (include_atomic_edges : bool)
    : result (list (nat * nat) * list ivec3) :=
  let results := map (ase_neighborlist self) (seq 0 (ase_num_atoms self)) in
  let! (probe_edges, probe_offsets) :=
    ase_collect self include_atomic_edges 0 results in
  match probe_edges with
  | [] => Raise ValueError      (* np.concatenate of an empty list *)
  | _ => Ok (concat probe_edges, concat probe_offsets)
  end.
End AseWrapper.

(** Modelled from the spec: the neighbour list of [ase.neighborlist] (external,
    not part of src/), "a classic bucketed neighbor list over all atoms+probes
    at once (periodic, bidirectional, no self-interaction, zero skin
    distance)".  For site [i] it lists every site [j] and cell shift [S] with
    [|pos[j] + S.cell - pos[i]| < cutoff], the pair [(i, 0)] itself left out;
    shifts range over the replications that reach the cutoff along each
    periodic axis, which is exhaustive for positions inside the cell. *)
Definition primitive_neighbor_list : neighbor_list :=
  fun cutoff pbc cell positions i =>
    let '(cell0, cell1, cell2) := cell in
    let cell_vol := dot cell0 (cross cell1 cell2) in
    let '(pbc0, pbc1, pbc2) := pbc in
    let rep (periodic : bool) (c : vec3) : Z :=
      if periodic then ceil_radius_norm cutoff (vdiv c cell_vol) else 0%Z in
    let rep1 := rep pbc0 (cross cell1 cell2) in
    let rep2 := rep pbc1 (cross cell2 cell0) in
    let rep3 := rep pbc2 (cross cell0 cell1) in
    let shifts :=
      cartesian_prod (int_range (- rep1) (rep1 + 1)) (int_range (- rep2) (rep2 + 1))
                     (int_range (- rep3) (rep3 + 1)) in
    match nth_error positions i with
    | None => []
    | Some pi =>
        flat_map (fun jp : nat * vec3 =>
          let '(j, pj) := jp in
          flat_map (fun S : ivec3 =>
            let d := sum_sqr (vsub (vadd pj (vecmat (to_vec S) cell)) pi) in
            let is_self :=
              Nat.eqb i j &&
              (let '(s0, s1, s2) := S in Z.eqb s0 0 && Z.eqb s1 0 && Z.eqb s2 0) in
            if negb (Qle_bool (cutoff * cutoff) d) && negb is_self
            then [(j, S)] else [])
          shifts)
        (combine (seq 0 (length positions)) positions)
    end.

(** ** Grids *)

(** A 3-dimensional array: its shape and its entry at [(i, j, k)]. *)
Record ndarray3 (A : Type) : Type := mkNd {
  nd_shape : nat * nat * nat;
  nd_at : nat -> nat -> nat -> A
}.
Arguments mkNd {A} _ _.
Arguments nd_shape {A} _.
Arguments nd_at {A} _ _ _ _.

(** [np.prod(shape)] *)
Definition np_prod (shape : nat * nat * nat) : nat :=
  let '(nx, ny, nz) := shape in nx * ny * nz.

(** [a[::stride, ::stride, ::stride]] for a positive stride. *)
Definition strided {A : Type} (stride : nat) (a : ndarray3 A) : ndarray3 A :=
  let '(nx, ny, nz) := nd_shape a in
  let len n := (n + stride - 1) / stride in
  mkNd (len nx, len ny, len nz)
       (fun i j k => nd_at a (i * stride) (j * stride) (k * stride)).

Definition Qnat (n : nat) : Q := inject_Z (Z.of_nat n).

(** [grid_pos[i, j, k, 0, :]] of the source: [np.dot] of the meshgrid of
    fractional coordinates with the (1,3,3) cell tensor. *)
Definition calculate_grid_pos (shape : nat * nat * nat) (cell : mat3) : ndarray3 vec3 :=
  let '(nx, ny, nz) := shape in
  mkNd shape
       (fun i j k => vecmat (Qnat i / Qnat nx, Qnat j / Qnat ny, Qnat k / Qnat nz)%Q cell).

(** [np.unravel_index(g, shape)] in C order, for one flat index. *)
Definition unravel_index1 (shape : nat * nat * nat) (g : nat) : result (nat * nat * nat) :=
  let '(nx, ny, nz) := shape in
  if g <? nx * ny * nz
  then let k := g mod nz in
       let g' := g / nz in
       Ok (g' / ny, g' mod ny, k)
  else Raise ValueError.

Fixpoint mapM {A B : Type} (f : A -> result B) (l : list A) : result (list B) :=
  match l with
  | [] => Ok []
  | x :: l' => let! y := f x in let! ys := mapM f l' in Ok (y :: ys)
  end.

(** [np.unravel_index(indices, shape)]; the tuple of three index arrays is
    kept as one list of triples. *)
Definition unravel_index (indices : list nat) (shape : nat * nat * nat)
    : result (list (nat * nat * nat)) :=
  mapM (unravel_index1 shape) indices.

(** [np.arange(lo, hi, step=1)] on naturals. *)
Definition np_arange (lo hi : nat) : list nat := seq lo (hi - lo).

(** [np.ravel_multi_index], the inverse of [unravel_index1]. *)
Definition ravel (shape : nat * nat * nat) (t : nat * nat * nat) : nat :=
  let '(nx, ny, nz) := shape in
  let '(i, j, k) := t in (i * ny + j) * nz + k.

(** [a[probe_choice]]: indexing by the triples. *)
Definition index_by {A : Type} (a : ndarray3 A) (choice : list (nat * nat * nat)) : list A :=
  map (fun t : nat * nat * nat => let '(i, j, k) := t in nd_at a i j k) choice.

(** ** Host records and the records attached to them *)

(** A [torch_geometric.data.Data] used as probe graph; attributes are set one
    by one, so each may be absent ([hasattr] is [is_Some]). *)
Record ProbeGraphRecord : Type := mkProbeData {
  pd_cell : option mat3;
  pd_atomic_numbers : option (list Z);
  pd_natoms : option nat;
  pd_pos : option (list vec3);
  pd_target : option (list Q);
  pd_edge_index : option (list (nat * nat));
  pd_cell_offsets : option (list ivec3);
  pd_neighbors : option nat
}.

Record HostRecord : Type := mkHost {
  host_atomic_numbers : list Z;
  host_pos : list vec3;
  host_cell : mat3;
  host_charge_density : ndarray3 Q;
  host_attrs : gmap string (list Q);          (* every further attribute *)
  host_probe_data : option ProbeGraphRecord
}.

(** References to host records. *)
Abbreviation loc := positive (only parsing).

(** [data_object.probe_data = probe_data] *)
Definition set_probe_data (obj : HostRecord) (pd : ProbeGraphRecord) : HostRecord :=
  mkHost (host_atomic_numbers obj) (host_pos obj) (host_cell obj)
         (host_charge_density obj) (host_attrs obj) (Some pd).

(** The test that opens [__call__].  [edge_index] is a declared property of
    [Data], so [hasattr(probe_data, 'edge_index')] holds whether or not it
    was set; the test comes down to [probe_data] being present and carrying
    [cell_offsets]. *)
Definition precomputed (obj : HostRecord) : bool :=
  match host_probe_data obj with
  | Some pd => true && bool_decide (is_Some (pd_cell_offsets pd))
  | None => false
  end.

(** ** ProbeGraphAdder *)

Record ProbeGraphAdder : Type := mkAdder {
  self_num_probes : nat;
  self_cutoff : Q;
  self_include_atomic_edges : bool;
  self_mode : string;
  self_slice_start : nat;
  self_stride : nat;
  self_implementation : string
}.

(** [np.random.randint(high, size=size)]; the generator is the stream [rng].
    An empty draw is returned before the bound is looked at. *)
Definition np_random_randint (rng : nat -> nat) (high size : nat) : result (list nat) :=
  if size =? 0 then Ok []
  else if high =? 0 then Raise ValueError
  else Ok (map (fun t => rng t mod high) (seq 0 size)).

(** [int(np.ceil(total / num_probes))] *)
Definition ceil_div (total num_probes : nat) : result nat :=
  if num_probes =? 0
  then (if total =? 0 then Raise ValueError else Raise OverflowError)
  else Ok ((total + num_probes - 1) / num_probes).

(** [if stride != 1: assert (stride == 2) or (stride == 4);
    density = density[::stride, ::stride, ::stride]] *)
Definition downsample (stride : nat) (density : ndarray3 Q) : result (ndarray3 Q) :=
  if negb (stride =? 1) then
    if (stride =? 2) || (stride =? 4) then Ok (strided stride density)
    else Raise AssertionError
  else Ok density.

(** A [for] loop whose body may raise. *)
Fixpoint for_loop {S : Type} (body : S -> nat -> result S) (st : S) (range : list nat)
    : result S :=
  match range with
  | [] => Ok st
  | i :: range' => let! st' := body st i in for_loop body st' range'
  end.

Section Assembler.
Context {K : TorchFloat}.
Variable nbl : neighbor_list.

Definition get_edges_from_choice (self : ProbeGraphAdder)
    (probe_choice : list (nat * nat * nat)) (grid_pos : ndarray3 vec3)
    (atoms : Atoms) (include_atomic_edges : bool)
    : result (list (nat * nat) * list ivec3 * list Z * list vec3) :=
  let probe_pos := index_by grid_pos probe_choice in
  let probe_atoms :=
    mkAtoms (combine (repeat 0%Z (length probe_pos)) probe_pos)
            zero_cell (false, false, false) in
  let atoms_with_probes := Atoms_extend atoms probe_atoms in
  let atomic_numbers := get_atomic_numbers atoms_with_probes in
  let! (edge_index, cell_offsets) :=
    if String.eqb (self_implementation self) "ASE" then
      let neighborlist :=
        AseNeighborListWrapper_init nbl (self_cutoff self) atoms_with_probes in
      AseNeighborListWrapper_get_all_neighbors
        neighborlist (self_cutoff self) include_atomic_edges
    else if String.eqb (self_implementation self) "RGPBC" then
      let! neighborlist :=
        RadiusGraphPBCWrapper_init (self_cutoff self) atoms_with_probes
                                   rg_default_pbc in
      RadiusGraphPBCWrapper_get_all_neighbors
        neighborlist (self_cutoff self) include_atomic_edges
    else Raise NotImplementedError in
  Ok (edge_index, cell_offsets, atomic_numbers, probe_pos).

(** The flat indices of block [i] in mode 'all'. *)
Definition block_choice (num_blocks num_probes total_probes i : nat) : list nat :=
  if i =? num_blocks - 1
  then np_arange (i * num_probes) total_probes
  else np_arange (i * num_probes) ((i + 1) * num_probes).

(** The accumulators of the block loop:
    probe_edges, probe_offsets, atomic_numbers, probe_pos. *)
Definition block_state : Type :=
  (list (nat * nat) * list ivec3 * list Z * list vec3)%type.

Definition block_body (self : ProbeGraphAdder) (grid_pos : ndarray3 vec3)
    (atoms : Atoms) (num_blocks num_probes total_probes : nat)
    (st : block_state) (i : nat) : result block_state :=
  let '(probe_edges, probe_offsets, atomic_numbers, probe_pos) := st in
  let probe_choice := block_choice num_blocks num_probes total_probes i in
  let! probe_choice := unravel_index probe_choice (nd_shape grid_pos) in
  let! (new_edges, new_offsets, new_atomic_numbers, new_pos) :=
    get_edges_from_choice self probe_choice grid_pos atoms
                          (self_include_atomic_edges self) in
  (* new_edges[1] += i*num_probes *)
  let new_edges := map (fun e => (fst e, snd e + i * num_probes)) new_edges in
  Ok (probe_edges ++ new_edges,
      probe_offsets ++ new_offsets,
      atomic_numbers ++ repeat 0%Z (length new_pos),
      probe_pos ++ new_pos).

(** What the three [if mode == ...] blocks leave in the local variables
    probe_edges, probe_offsets, atomic_numbers, probe_pos, probe_choice;
    [None] while they are unassigned. *)
Definition locals : Type :=
  option (list (nat * nat) * list ivec3 * list Z * list vec3
          * list (nat * nat * nat)).

(** [__call__] from "Use default options" to the filled [probe_data]. *)
Definition build_probe_data (self : ProbeGraphAdder) (data_object : HostRecord)
    (slice_start num_probes : option nat) (mode : option string)
    (stride : option nat) (rng : nat -> nat) : result ProbeGraphRecord :=
  let slice_start := default (self_slice_start self) slice_start in
  let num_probes := default (self_num_probes self) num_probes in
  let mode := default (self_mode self) mode in
  let stride := default (self_stride self) stride in
  let! atoms :=
    Atoms_new (host_atomic_numbers data_object) (host_pos data_object)
              (host_cell data_object) (true, true, true) in
  let density := host_charge_density data_object in
  let! density := downsample stride density in
  let grid_pos := calculate_grid_pos (nd_shape density) (host_cell data_object) in
  let vars : locals := None in
  let! vars :=
    if String.eqb mode "random" then
      let! probe_choice :=
        np_random_randint rng (np_prod (nd_shape grid_pos)) num_probes in
      let! probe_choice := unravel_index probe_choice (nd_shape grid_pos) in
      let! (probe_edges, probe_offsets, atomic_numbers, probe_pos) :=
        get_edges_from_choice self probe_choice grid_pos atoms
                              (self_include_atomic_edges self) in
      Ok (Some (probe_edges, probe_offsets, atomic_numbers, probe_pos, probe_choice))
    else Ok vars in
  let! vars :=
    if String.eqb mode "slice" then
      let probe_choice := np_arange slice_start (slice_start + num_probes) in
      let! probe_choice := unravel_index probe_choice (nd_shape grid_pos) in
      let! (probe_edges, probe_offsets, atomic_numbers, probe_pos) :=
        get_edges_from_choice self probe_choice grid_pos atoms
                              (self_include_atomic_edges self) in
      Ok (Some (probe_edges, probe_offsets, atomic_numbers, probe_pos, probe_choice))
    else Ok vars in
  let! vars :=
    if String.eqb mode "all" then
      let total_probes := np_prod (nd_shape density) in
      let! num_blocks := ceil_div total_probes num_probes in
      let! (probe_edges, probe_offsets, atomic_numbers, probe_pos) :=
        for_loop (block_body self grid_pos atoms num_blocks num_probes total_probes)
                 ([], [], host_atomic_numbers data_object, [])
                 (seq 0 num_blocks) in
      let probe_choice := np_arange 0 (np_prod (nd_shape grid_pos)) in
      let! probe_choice := unravel_index probe_choice (nd_shape grid_pos) in
      (* without a block, probe_edges is still the one-dimensional
         torch.Tensor([]), and edge_index.shape[1] below does not exist *)
      if num_blocks =? 0 then Raise IndexError
      else Ok (Some (probe_edges, probe_offsets, atomic_numbers, probe_pos, probe_choice))
    else Ok vars in
  match vars with
  | None => Raise UnboundLocalError
  | Some (probe_edges, probe_offsets, atomic_numbers, probe_pos, probe_choice) =>
      Ok (mkProbeData
            (Some (host_cell data_object))
            (Some atomic_numbers)
            (Some (length atomic_numbers))
            (Some (host_pos data_object ++ probe_pos))
            (Some (index_by density probe_choice))
            (Some probe_edges)
            (Some probe_offsets)
            (Some (length probe_edges)))
  end.

(** [ProbeGraphAdder.__call__(data_object, ...)] on the store [h]. *)
Definition ProbeGraphAdder_call (self : ProbeGraphAdder)
    (h : gmap loc HostRecord) (data_object : loc)
    (slice_start num_probes : option nat) (mode : option string)
    (stride : option nat) (rng : nat -> nat)
    : result (loc * gmap loc HostRecord) :=
  match h !! data_object with
  | None => Raise ReferenceError
  | Some obj =>
      (* Check if probe graph has been precomputed *)
      if precomputed obj then Ok (data_object, h)
      else
        let! probe_data :=
          build_probe_data self obj slice_start num_probes mode stride rng in
        Ok (data_object, <[data_object := set_probe_data obj probe_data]> h)
  end.
End Assembler.

(** ** Sample data *)

Definition diag (a : Z) : mat3 :=
  ((inject_Z a, 0, 0), (0, inject_Z a, 0), (0, 0, inject_Z a))%Q.

Definition adder0 (impl : string) : ProbeGraphAdder :=
  mkAdder 1 2 false "slice" 9 1 impl.

(** One atom at the origin and one probe at (0,0,9), as the assembler builds
    them from [host0] below. *)
Definition atoms_z : Atoms :=
  mkAtoms [(1%Z, (0, 0, 0)%Q); (0%Z, (0, 0, 9)%Q)] (diag 10) (true, true, true).

Definition host0 : HostRecord :=
  mkHost [1%Z] [(0, 0, 0)%Q] (diag 10)
         (mkNd (1, 1, 10) (fun _ _ k => Qnat k)) ∅ None.

(** The same atom under an empty grid. *)
Definition host_empty : HostRecord :=
  mkHost [1%Z] [(0, 0, 0)%Q] (diag 10)
         (mkNd (0, 1, 1) (fun _ _ _ => 0%Q)) ∅ None.

(** A host record with a complete probe graph already attached. *)
Definition host_pre : HostRecord :=
  mkHost [1%Z] [(0, 0, 0)%Q] (diag 10)
         (mkNd (1, 1, 10) (fun _ _ k => Qnat k)) ∅
         (Some (mkProbeData None None None None None (Some []) (Some []) None)).



(** Two atoms one apart under the grid of [host0], and an assembler that
    visits the whole grid in blocks of four with the cell-list strategy,
    atomic edges included. *)
Definition host2 : HostRecord :=
  mkHost [1%Z; 1%Z] [(0, 0, 0)%Q; (1, 0, 0)%Q] (diag 10)
         (mkNd (1, 1, 10) (fun _ _ k => Qnat k)) ∅ None.

Definition atoms_h2 : Atoms :=
  mkAtoms [(1%Z, (0, 0, 0)%Q); (1%Z, (1, 0, 0)%Q)] (diag 10) (true, true, true).

Definition adder_all : ProbeGraphAdder :=
  mkAdder 4 2 true "all" 0 1 "ASE".

(** An atom at the origin and a probe at 2.0000001 along the first axis. *)
Definition atoms_far : Atoms :=
  mkAtoms [(1%Z, (0, 0, 0)%Q); (0%Z, (20000001 # 10000000, 0, 0)%Q)]
          (diag 10) (true, true, true).

(** An atom at 4 and a probe at 4.01 along the first axis. *)
Definition atoms_near : Atoms :=
  mkAtoms [(1%Z, (4, 0, 0)%Q); (0%Z, (401 # 100, 0, 0)%Q)]
          (diag 10) (true, true, true).


(** One atom and three probes, and the radius graph of cutoff 2 on them. *)
Definition atoms1 : Atoms :=
  mkAtoms [(1%Z, (0, 0, 0)%Q); (0%Z, (0, 0, 9)%Q); (0%Z, (1, 0, 0)%Q); (0%Z, (9, 0, 0)%Q)]
          (diag 10) (true, true, true).

Definition rg1 : RadiusGraphPBCWrapper :=
  mkRGPBC 2 [(0, 2); (0, 3)] [(0, 0, 0)%Z; (1, 0, 0)%Z].

(** The atoms the assembler builds from [host0]. *)
Definition atoms_h : Atoms :=
  mkAtoms [(1%Z, (0, 0, 0)%Q)] (diag 10) (true, true, true).

(** The probe graph the assembler computes for [host0] in mode 'slice'
    (one probe, the grid point (0,0,9)) with the radius graph. *)
Definition pd0 : ProbeGraphRecord :=
  mkProbeData
    (Some (host_cell host0))
    (Some [1%Z; 0%Z])
    (Some 2)
    (Some (host_pos host0
           ++ index_by (calculate_grid_pos (1, 1, 10) (host_cell host0)) [(0, 0, 9)]))
    (Some [Qnat 9])
    (Some [])
    (Some [])
    (Some 0).

(** ** Vocabulary of the properties *)

(** Sites with their index in the structure. *)
Definition enum_sites (atoms : Atoms) : list (nat * (Z * vec3)) :=
  combine (seq 0 (length (atoms_sites atoms))) (atoms_sites atoms).

Definition rg_row : Type := ((nat * (Z * vec3)) * (nat * (Z * vec3)) * ivec3)%type.

Definition site_is_probe (e : nat * (Z * vec3)) : bool := Z.eqb 0 (fst (snd e)).

(** Squared distance between a site at [ps] and the image of a site at [pt]
    translated by [u] cells, as the constructor computes it in single
    precision: [torch.sum((pos1 - (pos2 + bmm(cell^T, u))) ** 2)]. *)
Definition rg_site_distance_sqr {K : TorchFloat} (cell : mat3) (ps pt : vec3)
    (u : ivec3) : float :=
  torch_sum
    (fsquare3
       (fsub3 (FloatTensor3 ps)
              (fadd3 (FloatTensor3 pt)
                     (torch_bmm (transpose (FloatTensor33 cell))
                                (FloatTensor3 (to_vec u)))))).

Definition rg_distance_sqr {K : TorchFloat} (cell : mat3) (r : rg_row) : float :=
  let '(a, p, u) := r in rg_site_distance_sqr cell (snd (snd a)) (snd (snd p)) u.

(** The constructor's mask on a squared distance. *)
Definition rg_mask {K : TorchFloat} (radius : Q) (d : float) : bool :=
  torch_le d (radius * radius) && torch_gt d epsilon.

Definition rg_keep {K : TorchFloat} (radius : Q) (cell : mat3) (r : rg_row) : bool :=
  rg_mask radius (rg_distance_sqr cell r).

Definition rg_rows (atoms : Atoms) (unit_cell : list ivec3) : list rg_row :=
  list_prod
    (list_prod (List.filter (fun e => negb (site_is_probe e)) (enum_sites atoms))
               (List.filter site_is_probe (enum_sites atoms)))
    unit_cell.

(** Squared length of an edge in exact arithmetic, as a consumer of the
    record recomputes it: [pos[source] - pos[target] + offset . cell]; this is
    the convention the constructor's "Fix offset direction" establishes for
    its own edges. *)
Definition edge_distance_sqr (positions : list vec3) (cell : mat3)
    (e : nat * nat * ivec3) : option Q :=
  let '(s, t, off) := e in
  match nth_error positions s, nth_error positions t with
  | Some ps, Some pt => Some (sum_sqr (vadd (vsub ps pt) (vecmat (to_vec off) cell)))
  | _, _ => None
  end.

(** The same length in single precision, as the radius graph computes it for
    the pair and the translation the stored offset stands for (its
    negation). *)
Definition rg_edge_distance_sqr {K : TorchFloat} (positions : list vec3) (cell : mat3)
    (e : nat * nat * ivec3) : option float :=
  let '(s, t, off) := e in
  match nth_error positions s, nth_error positions t with
  | Some ps, Some pt => Some (rg_site_distance_sqr cell ps pt (ineg off))
  | _, _ => None
  end.

(** [unravel_index1] without its range check. *)
Definition unravel (shape : nat * nat * nat) (g : nat) : nat * nat * nat :=
  let '(nx, ny, nz) := shape in (g / nz / ny, (g / nz) mod ny, g mod nz).

Definition in_shape (shape : nat * nat * nat) (t : nat * nat * nat) : Prop :=
  let '(nx, ny, nz) := shape in
  let '(i, j, k) := t in i < nx /\ j < ny /\ k < nz.

(** The density value at a flat index, read through its row-major triple. *)
Definition density_at (density : ndarray3 Q) (g : nat) : Q :=
  let '(i, j, k) := unravel (nd_shape density) g in nd_at density i j k.

(** Block [i] as the spec words it: the run of [num_probes] flat indices
    from [i * num_probes], cut at the end of the grid. *)
Definition all_block (total num_probes i : nat) : list nat :=
  seq (i * num_probes) (Nat.min num_probes (total - i * num_probes)).

(** What the engine returns for one set of probes. *)
Definition engine_result : Type :=
  (list (nat * nat) * list ivec3 * list Z * list vec3)%type.

Definition res_edges (r : engine_result) : list (nat * nat) := fst (fst (fst r)).
Definition res_offsets (r : engine_result) : list ivec3 := snd (fst (fst r)).
Definition res_numbers (r : engine_result) : list Z := snd (fst r).
Definition res_pos (r : engine_result) : list vec3 := snd r.

(** [new_edges[1] += i*num_probes] on the edges of block [i]: the whole
    second row is moved. *)
Definition shift_block (num_probes : nat) (ir : nat * engine_result) : list (nat * nat) :=
  map (fun e => (fst e, snd e + fst ir * num_probes)) (res_edges (snd ir)).

(** The edges of block [i] as the spec words the shift: [i * num_probes] is
    added to the probe-side indices, those from [num_atoms] on; an index
    that points at an atom stays. *)
Definition shift_probe_side (num_atoms num_probes : nat) (ir : nat * engine_result)
    : list (nat * nat) :=
  map (fun e => (fst e,
                 if num_atoms <=? snd e then snd e + fst ir * num_probes else snd e))
      (res_edges (snd ir)).

(** One turn of the block loop up to the engine's answer. *)
Definition block_edges {K : TorchFloat} (nbl : neighbor_list) (self : ProbeGraphAdder)
    (grid_pos : ndarray3 vec3) (atoms : Atoms)
    (num_blocks num_probes total_probes i : nat) : result engine_result :=
  let! probe_choice :=
    unravel_index (block_choice num_blocks num_probes total_probes i)
                  (nd_shape grid_pos) in
  get_edges_from_choice nbl self probe_choice grid_pos atoms
                        (self_include_atomic_edges self).

(** Mode 'all' as the spec words it, on a non-empty grid: the engine runs on
    each block of the partition in turn; block results are concatenated in
    block order, the probe-side indices of block [i] moved by
    [i * num_probes]; probes follow the atoms in flat grid order. *)
Definition all_mode_reference {K : TorchFloat} (nbl : neighbor_list)
    (self : ProbeGraphAdder) (obj : HostRecord) (atoms : Atoms)
    (density : ndarray3 Q) (num_probes : nat) : result ProbeGraphRecord :=
  let shape := nd_shape density in
  let total := np_prod shape in
  let num_blocks := (total + num_probes - 1) / num_probes in
  let grid_pos := calculate_grid_pos shape (host_cell obj) in
  let! rs :=
    mapM (fun i => get_edges_from_choice nbl self
                     (map (unravel shape) (all_block total num_probes i))
                     grid_pos atoms (self_include_atomic_edges self))
         (seq 0 num_blocks) in
  let probe_edges :=
    concat (map (shift_probe_side (length (host_atomic_numbers obj)) num_probes)
                (combine (seq 0 num_blocks) rs)) in
  let atomic_numbers := host_atomic_numbers obj ++ repeat 0%Z total in
  Ok (mkProbeData
        (Some (host_cell obj))
        (Some atomic_numbers)
        (Some (length atomic_numbers))
        (Some (host_pos obj ++ index_by grid_pos (map (unravel shape) (seq 0 total))))
        (Some (map (density_at density) (seq 0 total)))
        (Some probe_edges)
        (Some (concat (map res_offsets rs)))
        (Some (length probe_edges))).

Ltac q_decide := vm_compute; first [reflexivity | discriminate | intro; discriminate].

(** The translations the radius graph enumerates for given replication
    counts: [torch.cartesian_prod] of the three [torch.arange(-rep, rep + 1)]. *)
Definition rg_unit_cell (rep_a1 rep_a2 rep_a3 : Z) : list ivec3 :=
  cartesian_prod (int_range (- rep_a1) (rep_a1 + 1))
                 (int_range (- rep_a2) (rep_a2 + 1))
                 (int_range (- rep_a3) (rep_a3 + 1)).

(** A replication count [torch.arange(-rep, rep + 1)] accepts: finite and
    not negative. *)
Definition accepted_rep (rep : option Z) : result Z :=
  match rep with
  | Some rep => if (rep <? 0)%Z then Raise RuntimeError else Ok rep
  | None => Raise RuntimeError
  end.

(** The replication counts of the constructor for a cell and periodicity,
    when [torch.arange] accepts all three. *)
Definition rg_replications {K : TorchFloat} (radius : Q) (cell : mat3)
    (pbc : bool * bool * bool) : result (Z * Z * Z) :=
  let '(cell0, cell1, cell2) := FloatTensor33 cell in
  let '(pbc0, pbc1, pbc2) := pbc in
  let cross_a2a3 := torch_cross cell1 cell2 in
  let cell_vol := torch_sum (fmul3 cell0 cross_a2a3) in
  let! rep_a1 := accepted_rep (replications pbc0 radius cross_a2a3 cell_vol) in
  let! rep_a2 :=
    accepted_rep (replications pbc1 radius (torch_cross cell2 cell0) cell_vol) in
  let! rep_a3 :=
    accepted_rep (replications pbc2 radius (torch_cross cell0 cell1) cell_vol) in
  Ok (rep_a1, rep_a2, rep_a3).

Definition in_box (reps : Z * Z * Z) (u : ivec3) : Prop :=
  let '(r1, r2, r3) := reps in
  let '(u1, u2, u3) := u in
  (- r1 <= u1 <= r1)%Z /\ (- r2 <= u2 <= r2)%Z /\ (- r3 <= u3 <= r3)%Z.

(** Component-wise equality of rational vectors. *)
Definition veq (a b : vec3) : Prop :=
  let '(a0, a1, a2) := a in let '(b0, b1, b2) := b in
  (a0 == b0 /\ a1 == b1 /\ a2 == b2)%Q.

(** Edges of consecutive engine results put end to end, the probe side of
    each result moved by the number of probes that precede it. *)
Fixpoint shifted_edges (k : nat) (rs : list engine_result) : list (nat * nat) :=
  match rs with
  | [] => []
  | r :: rs' =>
      map (fun e => (fst e, snd e + k)) (res_edges r)
      ++ shifted_edges (k + length (res_pos r)) rs'
  end.

(** The record assembled from the engine's results on consecutive groups of
    probes. *)
Definition record_of (obj : HostRecord) (density : ndarray3 Q)
    (grid_pos : ndarray3 vec3) (blocks : list (list (nat * nat * nat)))
    (rs : list engine_result) : ProbeGraphRecord :=
  let probe_choice := concat blocks in
  let probe_edges := shifted_edges 0 rs in
  let atomic_numbers := host_atomic_numbers obj ++ repeat 0%Z (length probe_choice) in
  mkProbeData
    (Some (host_cell obj))
    (Some atomic_numbers)
    (Some (length atomic_numbers))
    (Some (host_pos obj ++ index_by grid_pos probe_choice))
    (Some (index_by density probe_choice))
    (Some probe_edges)
    (Some (concat (map res_offsets rs)))
    (Some (length probe_edges)).

(** The record the assembler builds for [host0] in mode 'all' with blocks of
    four probes and the radius graph. *)
Definition pd_all : ProbeGraphRecord :=
  Eval vm_compute in
    match build_probe_data primitive_neighbor_list (adder0 "RGPBC") host0
                           None (Some 4) (Some "all"%string) None (fun _ => 0) with
    | Ok pd => pd
    | Raise _ => pd0
    end.

(** An atom at the height of grid point 5 of the grid of [host0], and the
    record the assembler builds for it in mode 'all' with blocks of four
    probes and the radius graph: its edges come from blocks 0 and 1. *)
Definition host5 : HostRecord :=
  mkHost [1%Z] [(0, 0, 5)%Q] (diag 10)
         (mkNd (1, 1, 10) (fun _ _ k => Qnat k)) ∅ None.

Definition pd_all5 : ProbeGraphRecord :=
  Eval vm_compute in
    match build_probe_data primitive_neighbor_list (adder0 "RGPBC") host5
                           None (Some 4) (Some "all"%string) None (fun _ => 0) with
    | Ok pd => pd
    | Raise _ => pd0
    end.

(** The neighbour entries of one atom that the cell-list wrapper keeps: all
    of them with atomic edges included, otherwise those whose partner has the
    probe species. *)
Definition ase_kept (self : AseNeighborListWrapper) (include_atomic_edges : bool)
    (entries : list (nat * ivec3)) : list (nat * ivec3) :=
  if include_atomic_edges then entries
  else List.filter (fun e => Z.eqb 0 (nth (fst e) (ase_atomic_numbers self) 1%Z)) entries.

(** ** build_charge_lmdb *)

(** What stops a build: an exception of the statements embedded here, or one
    of the external readers' own (a missing CHGCAR, a malformed file). *)
Inductive build_exn (E : Type) : Type :=
| Internal (e : exn)
| External (e : E).
Arguments Internal {E} e.
Arguments External {E} e.

(** The object handed to [pickle.dumps]. *)
Inductive pickled : Type :=
| PickledData (data_object : HostRecord)
| PickledInt (n : nat).

(** The LMDB environment: the value last put under each key. *)
Abbreviation lmdb_env := (gmap string pickled) (only parsing).

(** [a[::-stride, ::-stride, ::-stride]] for a positive stride. *)
Definition strided_back {A : Type} (stride : nat) (a : ndarray3 A) : ndarray3 A :=
  let '(nx, ny, nz) := nd_shape a in
  let len n := (n + stride - 1) / stride in
  mkNd (len nx, len ny, len nz)
       (fun i j k => nd_at a (nx - 1 - i * stride) (ny - 1 - j * stride)
                             (nz - 1 - k * stride)).

(** [dens[::stride, ::stride, ::stride]] for an integer stride. *)
Definition slice_step (stride : Z) (dens : ndarray3 Q) : result (ndarray3 Q) :=
  if (stride =? 0)%Z then Raise ValueError
  else if (0 <? stride)%Z then Ok (strided (Z.to_nat stride) dens)
  else Ok (strided_back (Z.to_nat (- stride)) dens).

Section Builder.
Context {K : TorchFloat}.
Variable nbl : neighbor_list.
Variable rng : nat -> nat.
(** The external readers: [VaspChargeDensity] on the CHGCAR of a directory
    of [inpath], giving [vcd.atoms[-1]] and [vcd.chg[-1]], and
    [AtomsToGraphs(radius=cutoff, ...).convert], giving the atomic numbers,
    positions, cell and further attributes of the new data object. *)
Variables A E : Type.
Variable VaspChargeDensity : string -> string -> E + (A * ndarray3 Q).
Variable a2g_convert :
  Q -> A -> E + (list Z * list vec3 * mat3 * gmap string (list Q)).
(** The builtin [object], a reference like any other. *)
Variable builtin_object : loc.

(** [probe_graph_adder(object)]: the call and the record behind the
    reference it returns. *)
Definition call_on_object (probe_graph_adder : ProbeGraphAdder)
    (h : gmap loc HostRecord) : result (HostRecord * gmap loc HostRecord) :=
  let! (l, h') :=
    ProbeGraphAdder_call nbl probe_graph_adder h builtin_object
                         None None None None rng in
  match h' !! l with
  | Some data_object => Ok (data_object, h')
  | None => Raise ReferenceError
  end.

(** The body of [for fid, directory in enumerate(paths)], from [fid] on.
    [last] is the loop variable [fid] as the previous iteration left it,
    [None] while it is unbound. *)
Fixpoint build_loop (inpath : string) (probe_graph_adder : option ProbeGraphAdder)
    (stride : Z) (cutoff : Q) (fid : nat) (paths : list string)
    (last : option nat) (h : gmap loc HostRecord) (db : lmdb_env)
    : lmdb_env * (build_exn E + option nat) :=
  match paths with
  | [] => (db, inr last)
  | directory :: paths' =>
      match VaspChargeDensity inpath directory with
      | inl e => (db, inl (External e))
      | inr (atoms, dens) =>
          match (if negb (stride =? 1)%Z then slice_step stride dens else Ok dens) with
          | Raise e => (db, inl (Internal e))
          | Ok dens =>
              match a2g_convert cutoff atoms with
              | inl e => (db, inl (External e))
              | inr (atomic_numbers, pos, cell, attrs) =>
                  (* data_object.charge_density = dens *)
                  let data_object := mkHost atomic_numbers pos cell dens attrs None in
                  match (match probe_graph_adder with
                         | Some adder => call_on_object adder h
                         | None => Ok (data_object, h)
                         end) with
                  | Raise e => (db, inl (Internal e))
                  | Ok (data_object, h) =>
                      build_loop inpath probe_graph_adder stride cutoff (S fid) paths'
                                 (Some fid) h
                                 (<[pretty fid := PickledData data_object]> db)
                  end
              end
          end
      end
  end.

(** [build_charge_lmdb]: [paths] is the listing [os.listdir(inpath)], [db]
    the environment opened under [outpath]; the result is the environment
    as the run leaves it, and how the run ended. *)
Definition build_charge_lmdb (inpath : string) (paths : list string)
    (probe_graph_adder : option ProbeGraphAdder) (stride : Z) (cutoff : Q)
    (h : gmap loc HostRecord) (db : lmdb_env)
    : lmdb_env * (build_exn E + unit) :=
  match build_loop inpath probe_graph_adder stride cutoff 0 paths None h db with
  | (db, inl e) => (db, inl e)
  | (db, inr None) => (db, inl (Internal UnboundLocalError))
  | (db, inr (Some fid)) => (<["length" := PickledInt (fid + 1)]> db, inr tt)
  end.
End Builder.

(** A listing of two directories read by constant readers. *)
Definition reader0 (inpath directory : string) : Empty_set + (unit * ndarray3 Q) :=
  inr (tt, host_charge_density host0).

Definition convert0 (cutoff : Q) (atoms : unit)
    : Empty_set + (list Z * list vec3 * mat3 * gmap string (list Q)) :=
  inr ([1%Z], [(0, 0, 0)%Q], diag 10, ∅).

(** * Properties *)

(** ** Masks, repeats and tiles as comprehensions *)

Section ListFacts.
Context {A B C : Type}.

Lemma select_map_filter (f : A -> bool) (g : A -> B) (l : list A) :
  select (map f l) (map g l) = map g (List.filter f l).
Proof.
  induction l as [|x l IH]; simpl; [reflexivity|].
  destruct (f x); simpl; now rewrite IH.
Qed.

Lemma combine_map_same (g1 : A -> B) (g2 : A -> C) (l : list A) :
  combine (map g1 l) (map g2 l) = map (fun x => (g1 x, g2 x)) l.
Proof. induction l as [|x l IH]; simpl; [reflexivity|now rewrite IH]. Qed.

Lemma np_repeat_map_prod (f : A -> C) (l : list A) (m : list B) :
  np_repeat (length m) (map f l) = map (fun x => f (fst x)) (list_prod l m).
Proof.
  unfold np_repeat. induction l as [|x l IH]; simpl; [reflexivity|].
  rewrite IH, map_app, map_map. f_equal. simpl.
  clear IH. induction m as [|y m IHm]; simpl; [reflexivity|now rewrite IHm].
Qed.

Lemma np_tile_map_prod (g : B -> C) (l : list A) (m : list B) :
  np_tile (length l) (map g m) = map (fun x => g (snd x)) (list_prod l m).
Proof.
  unfold np_tile. induction l as [|x l IH]; simpl; [reflexivity|].
  rewrite IH, map_app, map_map. reflexivity.
Qed.

Lemma np_tile_prod_snd (l : list A) (m : list B) :
  np_tile (length l) m = map snd (list_prod l m).
Proof.
  unfold np_tile. induction l as [|x l IH]; simpl; [reflexivity|].
  rewrite IH, map_app, map_map. simpl. now rewrite map_id.
Qed.

Lemma length_list_prod (l : list A) (m : list B) :
  length (list_prod l m) = length l * length m.
Proof. apply length_prod. Qed.

Lemma filter_partition_length (f : A -> bool) (l : list A) :
  length (List.filter (fun x => negb (f x)) l) + length (List.filter f l) = length l.
Proof.
  induction l as [|x l IH]; simpl; [reflexivity|].
  destruct (f x); simpl; lia.
Qed.
End ListFacts.

Lemma map2_map_same {A B C D : Type} (f : B -> C -> D) (g1 : A -> B) (g2 : A -> C)
    (l : list A) :
  map2 f (map g1 l) (map g2 l) = map (fun x => f (g1 x) (g2 x)) l.
Proof. unfold map2. now rewrite combine_map_same, map_map. Qed.

Lemma enum_fst {A : Type} (l : list A) (n : nat) :
  map fst (combine (seq n (length l)) l) = seq n (length l).
Proof.
  revert n. induction l as [|x l IH]; intros n; simpl; [reflexivity|].
  now rewrite IH.
Qed.

Lemma enum_snd {A : Type} (l : list A) (n : nat) :
  map snd (combine (seq n (length l)) l) = l.
Proof.
  revert n. induction l as [|x l IH]; intros n; simpl; [reflexivity|].
  now rewrite IH.
Qed.

Lemma enum_In {A : Type} (l : list A) (n i : nat) (x : A) :
  In (i, x) (combine (seq n (length l)) l) -> n <= i /\ nth_error l (i - n) = Some x.
Proof.
  revert n. induction l as [|y l IH]; intros n; simpl; [tauto|].
  intros [H|H].
  - inversion H; subst. rewrite Nat.sub_diag. split; [lia|reflexivity].
  - apply IH in H as [Hle Hn]. split; [lia|].
    replace (i - n) with (S (i - S n)) by lia. exact Hn.
Qed.

Lemma enum_sites_In (atoms : Atoms) (i : nat) (s : Z * vec3) :
  In (i, s) (enum_sites atoms) -> nth_error (atoms_sites atoms) i = Some s.
Proof.
  intros H. apply enum_In in H as [_ H]. now rewrite Nat.sub_0_r in H.
Qed.

(** ** The radius graph as a comprehension over (atom, probe, translation) *)

Lemma cells_per_dim_ok (rep : option Z) (cells : list Z) :
  cells_per_dim rep = Ok cells ->
  exists n, accepted_rep rep = Ok n /\ cells = int_range (- n) (n + 1).
Proof.
  unfold cells_per_dim, accepted_rep, torch_arange.
  destruct rep as [n|]; [|discriminate].
  destruct (Z.ltb_spec (n + 1) (- n)) as [H|H]; [discriminate|].
  intros [= <-]. exists n.
  destruct (Z.ltb_spec n 0) as [H'|H']; [lia|]. split; reflexivity.
Qed.

Lemma RadiusGraphPBCWrapper_init_rows {K : TorchFloat} radius atoms pbc w :
  RadiusGraphPBCWrapper_init radius atoms pbc = Ok w ->
  exists reps,
    rg_replications radius (get_cell atoms) pbc = Ok reps /\
    rg_cutoff w = radius /\
    let unit_cell := rg_unit_cell (fst (fst reps)) (snd (fst reps)) (snd reps) in
    rg_edge_index w =
      map (fun r : rg_row => (fst (fst (fst r)), fst (snd (fst r))))
          (List.filter (rg_keep radius (get_cell atoms)) (rg_rows atoms unit_cell)) /\
    rg_offsets w =
      map (fun r : rg_row => ineg (snd r))
          (List.filter (rg_keep radius (get_cell atoms)) (rg_rows atoms unit_cell)).
Proof.
  unfold RadiusGraphPBCWrapper_init, rg_replications.
  destruct atoms as [sites cell pbc0]. unfold get_cell, get_positions, get_atomic_numbers.
  cbn [atoms_cell atoms_sites].
  destruct cell as [[c0 c1] c2]. cbn [FloatTensor33].
  destruct pbc as [[p0 p1] p2].
  destruct (cells_per_dim (replications p0 _ _ _)) as [cells1|] eqn:E1; [|discriminate].
  cbn [rbind].
  destruct (cells_per_dim (replications p1 _ _ _)) as [cells2|] eqn:E2; [|discriminate].
  cbn [rbind].
  destruct (cells_per_dim (replications p2 _ _ _)) as [cells3|] eqn:E3; [|discriminate].
  cbn [rbind].
  apply cells_per_dim_ok in E1 as [n1 [A1 ->]], E2 as [n2 [A2 ->]], E3 as [n3 [A3 ->]].
  rewrite A1, A2, A3. cbn [rbind].
  intros [= <-]. cbn [rg_cutoff rg_edge_index rg_offsets].
  exists (n1, n2, n3). split; [reflexivity|]. split; [reflexivity|].
  cbn [fst snd]. cbv zeta. fold (rg_unit_cell n1 n2 n3).
  set (U := rg_unit_cell n1 n2 n3).
  set (E := enum_sites (mkAtoms sites (c0, c1, c2) pbc0)).
  assert (Hs : sites = map snd E) by (unfold E, enum_sites; cbn; now rewrite enum_snd).
  assert (HE : seq 0 (length E) = map fst E).
  { unfold E, enum_sites; cbn. rewrite enum_fst, length_combine, length_seq.
    now rewrite Nat.min_id. }
  unfold rg_rows. fold E.
  clearbody E U. subst sites.
  set (posf := fun e : nat * (Z * vec3) => snd (snd e)).
  set (A := List.filter (fun e => negb (site_is_probe e)) E).
  set (P := List.filter site_is_probe E).
  assert (H1 : map (Z.eqb 0) (map fst (map snd E)) = map site_is_probe E)
    by (now rewrite !map_map).
  assert (H2 : map negb (map site_is_probe E) = map (fun e => negb (site_is_probe e)) E)
    by (now rewrite map_map).
  assert (H3 : map snd (map snd E) = map posf E) by (now rewrite map_map).
  rewrite H1, H2, H3.
  rewrite !(select_map_filter _ posf). fold A P. rewrite !length_map.
  replace (seq 0 (length A + length P)) with (map fst E)
    by (rewrite <- HE; f_equal; symmetry; apply filter_partition_length).
  rewrite !(select_map_filter _ fst). fold A P.
  rewrite !(np_repeat_map_prod posf A P), !(np_tile_map_prod posf A P).
  rewrite !(np_repeat_map_prod fst A P), !(np_tile_map_prod fst A P).
  set (PAIRS := list_prod A P).
  rewrite <- (length_list_prod A P). fold PAIRS. rewrite !length_map.
  rewrite !map_map.
  rewrite !np_repeat_map_prod, !np_tile_map_prod.
  rewrite np_tile_prod_snd.
  set (ROWS := list_prod PAIRS U).
  repeat first [rewrite map2_map_same | rewrite map_map].
  rewrite !select_map_filter, combine_map_same.
  match goal with
  | |- context [List.filter ?f ROWS] =>
      assert (Hk : forall r : rg_row, f r = rg_keep radius (c0, c1, c2) r)
        by (intros [[a p] u]; reflexivity);
      rewrite (List.filter_ext _ _ Hk)
  end.
  rewrite map_map. split; reflexivity.
Qed.

Lemma ineg_involutive (u : ivec3) : ineg (ineg u) = u.
Proof. destruct u as [[u0 u1] u2]. unfold ineg. now rewrite !Z.opp_involutive. Qed.

(** The distance of a row is the single-precision length of the edge the
    row becomes, whose stored offset is the negated translation. *)
Lemma rg_distance_sqr_record {K : TorchFloat} (positions : list vec3) (cell : mat3)
    (a p : nat * (Z * vec3)) (u : ivec3) :
  nth_error positions (fst a) = Some (snd (snd a)) ->
  nth_error positions (fst p) = Some (snd (snd p)) ->
  rg_edge_distance_sqr positions cell (fst a, fst p, ineg u)
  = Some (rg_distance_sqr cell (a, p, u)).
Proof.
  intros Ha Hp. unfold rg_edge_distance_sqr, rg_distance_sqr.
  now rewrite Ha, Hp, ineg_involutive.
Qed.

Lemma rg_rows_In (atoms : Atoms) (U : list ivec3) (a p : nat * (Z * vec3)) (u : ivec3) :
  In (a, p, u) (rg_rows atoms U) ->
  nth_error (atoms_sites atoms) (fst a) = Some (snd a) /\ fst (snd a) <> 0%Z /\
  nth_error (atoms_sites atoms) (fst p) = Some (snd p) /\ fst (snd p) = 0%Z /\
  In u U.
Proof.
  unfold rg_rows. rewrite !in_prod_iff, !List.filter_In.
  intros [[[Ha Hna] [Hp Hip]] Hu].
  destruct a as [ia sa], p as [ip sp].
  apply enum_sites_In in Ha, Hp. unfold site_is_probe in *. cbn [fst snd] in *.
  repeat split; try assumption.
  - intros Hz. rewrite Hz in Hna. discriminate.
  - apply Z.eqb_eq in Hip. congruence.
Qed.

Lemma In_combine_map {A B C : Type} (f : A -> B) (g : A -> C) (l : list A) (b : B) (c : C) :
  In (b, c) (combine (map f l) (map g l)) -> exists x, In x l /\ f x = b /\ g x = c.
Proof.
  rewrite combine_map_same, in_map_iff. intros [x [Hx Hin]].
  inversion Hx; subst. eauto.
Qed.

(** X20.  Every edge the radius graph hands out joins two sites of the
    structure and has passed the constructor's single-precision test: the
    squared length it computes for the edge in float32, from the rounded
    positions and cell and the stored offset, is above epsilon and at most the
    squared cutoff as torch compares them.  Edges and offsets are aligned one
    to one, and the cutoff asked for is the one the graph was built with. *)
Theorem radius_graph_edges_pass_mask {K : TorchFloat}
    (radius cutoff : Q) (atoms : Atoms) (pbc : bool * bool * bool)
    (w : RadiusGraphPBCWrapper) (include_atomic_edges : bool)
    (edge_index : list (nat * nat)) (cell_offsets : list ivec3) :
  RadiusGraphPBCWrapper_init radius atoms pbc = Ok w ->
  RadiusGraphPBCWrapper_get_all_neighbors w cutoff include_atomic_edges
    = Ok (edge_index, cell_offsets) ->
  (cutoff == radius)%Q /\
  length edge_index = length cell_offsets /\
  forall e, In e (combine edge_index cell_offsets) ->
    exists d, rg_edge_distance_sqr (get_positions atoms) (get_cell atoms) e = Some d /\
              torch_gt d epsilon = true /\ torch_le d (radius * radius) = true.
Proof.
  intros Hinit Hget.
  destruct (RadiusGraphPBCWrapper_init_rows _ _ _ _ Hinit) as [reps [_ [Hc [He Ho]]]].
  unfold RadiusGraphPBCWrapper_get_all_neighbors in Hget.
  destruct (Qeq_bool cutoff (rg_cutoff w)) eqn:Hcut; [|discriminate].
  apply Qeq_bool_iff in Hcut. rewrite Hc in Hcut.
  injection Hget as <- <-. rewrite He, Ho. split; [exact Hcut|]. split.
  { now rewrite !length_map. }
  intros [[s t] off] Hin.
  apply In_combine_map in Hin as [[[a p] u] [Hin [Hst Hoff]]].
  apply List.filter_In in Hin as [Hrow Hkeep].
  apply rg_rows_In in Hrow as [Ha [_ [Hp _]]].
  cbn [fst snd] in Hst, Hoff. injection Hst as <- <-. subst off.
  exists (rg_distance_sqr (get_cell atoms) (a, p, u)). split.
  - apply rg_distance_sqr_record; unfold get_positions;
      rewrite nth_error_map; [rewrite Ha|rewrite Hp]; reflexivity.
  - unfold rg_keep, rg_mask in Hkeep. apply andb_true_iff in Hkeep as [Hle Hgt].
    split; assumption.
Qed.

Lemma radius_graph_edges_pass_mask_witness :
  (2 == 2)%Q /\
  length [(0, 2); (0, 3)] = length [(0, 0, 0)%Z; (1, 0, 0)%Z] /\
  forall e, In e (combine [(0, 2); (0, 3)] [(0, 0, 0)%Z; (1, 0, 0)%Z]) ->
    exists d, rg_edge_distance_sqr (get_positions atoms1) (get_cell atoms1) e = Some d /\
              torch_gt d epsilon = true /\ torch_le d (2 * 2) = true.
Proof.
  apply (radius_graph_edges_pass_mask 2 2 atoms1 rg_default_pbc rg1 false);
    vm_compute; reflexivity.
Defined.

(** ** The cell-list wrapper *)

Lemma np_take_select_In {A B : Type} (f : A -> bool) (a : list A)
    (entries : list (nat * B)) (xs : list A) (e : nat * B) :
  np_take a (map fst entries) = Ok xs ->
  In e (select (map f xs) entries) ->
  exists x, nth_error a (fst e) = Some x /\ f x = true.
Proof.
  revert xs. induction entries as [|e0 entries IH]; intros xs; simpl.
  - intros [= <-]. simpl. tauto.
  - destruct (nth_error a (fst e0)) as [x0|] eqn:Hx0; [|discriminate].
    destruct (np_take a (map fst entries)) as [xs'|] eqn:Hxs; [|discriminate].
    cbn. intros [= <-]. simpl.
    destruct (f x0) eqn:Hf.
    + intros [<-|Hin]; [eauto|]. now apply (IH xs').
    + now apply (IH xs').
Qed.

Lemma ase_collect_length (self : AseNeighborListWrapper) (include_atomic_edges : bool)
    (i : nat) (results : list (list (nat * ivec3))) pe po :
  ase_collect self include_atomic_edges i results = Ok (pe, po) ->
  length (concat pe) = length (concat po).
Proof.
  revert i pe po. induction results as [|entries results IH]; intros i pe po; simpl.
  - intros [= <- <-]. reflexivity.
  - destruct (if negb include_atomic_edges then _ else _) as [kept|]; [|discriminate].
    cbn. destruct (ase_collect _ _ (S i) results) as [[pe' po']|] eqn:Hrec; [|discriminate].
    cbn. intros [= <- <-]. simpl. rewrite !length_app, !length_map.
    now rewrite (IH _ _ _ Hrec).
Qed.

(** Sources of the collected edges are the loop indices; with atomic edges
    excluded, every target has the probe species. *)
Lemma ase_collect_edges (self : AseNeighborListWrapper) (include_atomic_edges : bool)
    (i : nat) (results : list (list (nat * ivec3))) pe po :
  ase_collect self include_atomic_edges i results = Ok (pe, po) ->
  forall s t, In (s, t) (concat pe) ->
    i <= s < i + length results /\
    (include_atomic_edges = false ->
     nth_error (ase_atomic_numbers self) t = Some 0%Z).
Proof.
  revert i pe po. induction results as [|entries results IH]; intros i pe po; simpl.
  - intros [= <- <-] s t []. 
  - destruct (if negb include_atomic_edges then _ else _) as [kept|] eqn:Hkept;
      [|discriminate].
    cbn. destruct (ase_collect _ _ (S i) results) as [[pe' po']|] eqn:Hrec; [|discriminate].
    cbn. intros [= <- <-] s t Hin. simpl in Hin. apply in_app_or in Hin as [Hin|Hin].
    + apply in_map_iff in Hin as [e [[= <- <-] He]]. split; [lia|].
      intros ->. simpl in Hkept.
      destruct (np_take _ _) as [species|] eqn:Htake; [|discriminate].
      cbn in Hkept. injection Hkept as <-.
      destruct (np_take_select_In _ _ _ _ _ Htake He) as [x [Hx Hz]].
      apply Z.eqb_eq in Hz. now subst x.
    + destruct (IH _ _ _ Hrec s t Hin) as [Hs Ht]. split; [lia|exact Ht].
Qed.

Lemma AseNeighborListWrapper_get_all_neighbors_edges (nbl : neighbor_list)
    (cutoff0 cutoff : Q) (atoms : Atoms) (include_atomic_edges : bool) ei offs :
  AseNeighborListWrapper_get_all_neighbors
    (AseNeighborListWrapper_init nbl cutoff0 atoms) cutoff include_atomic_edges
    = Ok (ei, offs) ->
  length ei = length offs /\
  forall s t, In (s, t) ei ->
    s < length (List.filter (fun x => negb (Z.eqb 0 (fst x))) (atoms_sites atoms)) /\
    (include_atomic_edges = false ->
     nth_error (get_atomic_numbers atoms) t = Some 0%Z).
Proof.
  unfold AseNeighborListWrapper_get_all_neighbors.
  destruct (ase_collect _ _ 0 _) as [[pe po]|] eqn:Hc; [|discriminate].
  cbn. destruct pe as [|pe0 pe]; [discriminate|].
  intros [= <- <-]. split; [exact (ase_collect_length _ _ _ _ _ _ Hc)|].
  intros s t Hin.
  destruct (ase_collect_edges _ _ _ _ _ _ Hc s t Hin) as [Hs Ht].
  split; [|exact Ht].
  rewrite length_map, length_seq in Hs. cbn [AseNeighborListWrapper_init ase_num_atoms] in Hs.
  unfold get_positions, get_atomic_numbers in Hs.
  rewrite !map_map, select_map_filter, length_map in Hs. exact (proj2 Hs).
Qed.

(** ** Species of the endpoints *)

Lemma filter_real_atoms_extend (sites : list (Z * vec3)) (probe_pos : list vec3) :
  Forall (fun z => z <> 0%Z) (map fst sites) ->
  List.filter (fun x : Z * vec3 => negb (Z.eqb 0 (fst x)))
              (sites ++ combine (repeat 0%Z (length probe_pos)) probe_pos)
  = sites.
Proof.
  intros Hreal. rewrite List.filter_app.
  assert (H1 : List.filter (fun x : Z * vec3 => negb (Z.eqb 0 (fst x))) sites = sites).
  { induction sites as [|x sites IH]; [reflexivity|].
    inversion Hreal as [|z zs Hz Hzs]; subst. cbn [List.filter].
    destruct (Z.eqb_spec 0 (fst x)) as [E|E]; [congruence|].
    cbn [negb]. f_equal. now apply IH. }
  assert (H2 : List.filter (fun x : Z * vec3 => negb (Z.eqb 0 (fst x)))
                 (combine (repeat 0%Z (length probe_pos)) probe_pos) = []).
  { induction probe_pos as [|p probe_pos IH]; [reflexivity|]. simpl. exact IH. }
  now rewrite H1, H2, app_nil_r.
Qed.

Lemma RadiusGraphPBCWrapper_init_species {K : TorchFloat} radius atoms pbc w s t :
  RadiusGraphPBCWrapper_init radius atoms pbc = Ok w ->
  In (s, t) (rg_edge_index w) ->
  (exists z, nth_error (get_atomic_numbers atoms) s = Some z /\ z <> 0%Z) /\
  nth_error (get_atomic_numbers atoms) t = Some 0%Z.
Proof.
  intros Hinit Hin.
  destruct (RadiusGraphPBCWrapper_init_rows _ _ _ _ Hinit) as [reps [_ [_ [He _]]]].
  rewrite He in Hin. apply in_map_iff in Hin as [[[a p] u] [[= <- <-] Hrow]].
  apply List.filter_In in Hrow as [Hrow _].
  apply rg_rows_In in Hrow as [Ha [Hza [Hp [Hzp _]]]].
  unfold get_atomic_numbers. rewrite !nth_error_map, Ha, Hp. cbn.
  split; [eauto|]. now rewrite Hzp.
Qed.


(** ** The assembler on the store *)

Lemma precomputed_true_iff (obj : HostRecord) :
  precomputed obj = true <->
  exists pd cell_offsets,
    host_probe_data obj = Some pd /\
    pd_cell_offsets pd = Some cell_offsets.
Proof.
  unfold precomputed. split.
  - destruct (host_probe_data obj) as [pd|]; [|discriminate].
    cbn [andb]. intros H.
    apply bool_decide_eq_true in H as [co Hco]. eauto.
  - intros (pd & co & -> & Hco). rewrite Hco. reflexivity.
Qed.

Lemma build_probe_data_complete {K : TorchFloat}
    nbl self obj slice_start num_probes mode stride rng pd :
  build_probe_data nbl self obj slice_start num_probes mode stride rng = Ok pd ->
  precomputed (set_probe_data obj pd) = true.
Proof.
  unfold build_probe_data.
  destruct (Atoms_new _ _ _ _) as [atoms|]; [|discriminate]. cbn.
  destruct (downsample _ _) as [density|]; [|discriminate]. cbn.
  destruct (if String.eqb _ "random" then _ else _) as [v1|]; [|discriminate]. cbn.
  destruct (if String.eqb _ "slice" then _ else _) as [v2|]; [|discriminate]. cbn.
  destruct (if String.eqb _ "all" then _ else _) as [v3|]; [|discriminate]. cbn.
  destruct v3 as [[[[[pe po] an] pp] pc]|]; [|discriminate].
  intros [= <-]. reflexivity.
Qed.

(** C4.  A host record that already carries a probe graph with both an edge
    set and offsets comes back at once: same reference, same store, whatever
    the configuration; hence a second call returns exactly what the first
    returned. *)
Theorem C4_call_idempotent {K : TorchFloat}
    (nbl : neighbor_list) (self : ProbeGraphAdder)
    (h : gmap loc HostRecord) (data_object : loc) (obj : HostRecord)
    (pd : ProbeGraphRecord) (edge_index : list (nat * nat)) (cell_offsets : list ivec3)
    (slice_start num_probes : option nat) (mode : option string)
    (stride : option nat) (rng : nat -> nat) :
  h !! data_object = Some obj ->
  host_probe_data obj = Some pd ->
  pd_edge_index pd = Some edge_index ->
  pd_cell_offsets pd = Some cell_offsets ->
  ProbeGraphAdder_call nbl self h data_object slice_start num_probes mode stride rng
    = Ok (data_object, h) /\
  forall self' slice_start' num_probes' mode' stride' rng',
    rbind (ProbeGraphAdder_call nbl self h data_object
             slice_start num_probes mode stride rng)
          (fun r => ProbeGraphAdder_call nbl self' (snd r) (fst r)
                      slice_start' num_probes' mode' stride' rng')
    = Ok (data_object, h).
Proof.
  intros Hobj Hpd Hei Hco.
  assert (Hpre : precomputed obj = true) by (apply precomputed_true_iff; eauto).
  assert (Hcall : forall self0 ss np m st r,
             ProbeGraphAdder_call nbl self0 h data_object ss np m st r
             = Ok (data_object, h)).
  { intros. unfold ProbeGraphAdder_call. now rewrite Hobj, Hpre. }
  split; [apply Hcall|].
  intros. rewrite Hcall. cbn. apply Hcall.
Qed.

(** Any successful call leaves a record on which every further call is the
    identity. *)
Lemma ProbeGraphAdder_call_twice {K : TorchFloat} nbl self h d ss np m st rng d' h'
    self' ss' np' m' st' rng' :
  ProbeGraphAdder_call nbl self h d ss np m st rng = Ok (d', h') ->
  ProbeGraphAdder_call nbl self' h' d' ss' np' m' st' rng' = Ok (d', h').
Proof.
  unfold ProbeGraphAdder_call at 1.
  destruct (h !! d) as [obj|] eqn:Hobj; [|discriminate].
  destruct (precomputed obj) eqn:Hpre.
  - intros [= <- <-]. unfold ProbeGraphAdder_call. now rewrite Hobj, Hpre.
  - destruct (build_probe_data _ _ _ _ _ _ _ _) as [pd|] eqn:Hb; [|discriminate].
    cbn. intros [= <- <-]. unfold ProbeGraphAdder_call.
    rewrite lookup_insert_eq. now rewrite (build_probe_data_complete _ _ _ _ _ _ _ _ _ Hb).
Qed.

(** C10.  A call that computes a new probe graph returns the reference it was
    given; in the store, only that record changes, and in that record only
    [probe_data]. *)
Theorem C10_call_frame {K : TorchFloat}
    (nbl : neighbor_list) (self : ProbeGraphAdder)
    (h h' : gmap loc HostRecord) (data_object ret : loc) (obj : HostRecord)
    (slice_start num_probes : option nat) (mode : option string)
    (stride : option nat) (rng : nat -> nat) :
  h !! data_object = Some obj ->
  precomputed obj = false ->
  ProbeGraphAdder_call nbl self h data_object slice_start num_probes mode stride rng
    = Ok (ret, h') ->
  ret = data_object /\
  (forall l, l <> data_object -> h' !! l = h !! l) /\
  exists obj' pd,
    h' !! data_object = Some obj' /\
    host_probe_data obj' = Some pd /\
    host_atomic_numbers obj' = host_atomic_numbers obj /\
    host_pos obj' = host_pos obj /\
    host_cell obj' = host_cell obj /\
    host_charge_density obj' = host_charge_density obj /\
    host_attrs obj' = host_attrs obj.
Proof.
  intros Hobj Hpre. unfold ProbeGraphAdder_call. rewrite Hobj, Hpre.
  destruct (build_probe_data _ _ _ _ _ _ _ _) as [pd|]; [|discriminate].
  cbn. intros [= <- <-]. split; [reflexivity|]. split.
  - intros l Hl. now apply lookup_insert_ne.
  - exists (set_probe_data obj pd), pd. rewrite lookup_insert_eq.
    repeat split; reflexivity.
Qed.

(** X19.  With a mode outside random, slice and all, a call on a record
    that carries no probe graph with cell offsets raises and returns no
    store; when the stride and the per-atom arrays are in order, what is
    raised is the unbound-variable error of the assembly step, not an error
    that names the mode. *)
Theorem unsupported_mode_raises {K : TorchFloat}
    (nbl : neighbor_list) (self : ProbeGraphAdder)
    (h : gmap loc HostRecord) (data_object : loc) (obj : HostRecord)
    (slice_start num_probes : option nat) (mode : option string)
    (stride : option nat) (rng : nat -> nat) :
  h !! data_object = Some obj ->
  precomputed obj = false ->
  default (self_mode self) mode <> "random"%string ->
  default (self_mode self) mode <> "slice"%string ->
  default (self_mode self) mode <> "all"%string ->
  exists e,
    ProbeGraphAdder_call nbl self h data_object slice_start num_probes mode stride rng
      = Raise e /\
    (length (host_atomic_numbers obj) = length (host_pos obj) ->
     In (default (self_stride self) stride) [1; 2; 4] ->
     e = UnboundLocalError).
Proof.
  intros Hobj Hpre Hr Hs Ha.
  unfold ProbeGraphAdder_call. rewrite Hobj, Hpre. unfold build_probe_data.
  apply String.eqb_neq in Hr, Hs, Ha. rewrite Hr, Hs, Ha.
  unfold Atoms_new.
  destruct (Nat.eqb_spec (length (host_atomic_numbers obj)) (length (host_pos obj)))
    as [Hlen|Hlen].
  - cbn. unfold downsample.
    destruct (Nat.eqb_spec (default (self_stride self) stride) 1) as [H1|H1]; cbn.
    + eexists; split; [reflexivity|]. reflexivity.
    + destruct (Nat.eqb_spec (default (self_stride self) stride) 2) as [H2|H2]; cbn.
      * eexists; split; [reflexivity|]. reflexivity.
      * destruct (Nat.eqb_spec (default (self_stride self) stride) 4) as [H4|H4]; cbn.
        -- eexists; split; [reflexivity|]. reflexivity.
        -- eexists; split; [reflexivity|].
           intros _ [E|[E|[E|[]]]]; congruence.
  - cbn. eexists; split; [reflexivity|]. intros E. contradiction.
Qed.

(** ** Flat grid indices *)

Lemma unravel_index1_ok (shape : nat * nat * nat) (g : nat) :
  g < np_prod shape -> unravel_index1 shape g = Ok (unravel shape g).
Proof.
  destruct shape as [[nx ny] nz]. unfold np_prod, unravel_index1, unravel.
  intros Hg. apply Nat.ltb_lt in Hg. now rewrite Hg.
Qed.

Lemma unravel_index1_out (shape : nat * nat * nat) (g : nat) :
  np_prod shape <= g -> unravel_index1 shape g = Raise ValueError.
Proof.
  destruct shape as [[nx ny] nz]. unfold np_prod, unravel_index1.
  intros Hg. apply Nat.ltb_ge in Hg. now rewrite Hg.
Qed.

Lemma mapM_ok {A B : Type} (f : A -> result B) (g : A -> B) (l : list A) :
  (forall x, In x l -> f x = Ok (g x)) -> mapM f l = Ok (map g l).
Proof.
  induction l as [|x l IH]; intros H; simpl; [reflexivity|].
  rewrite (H x) by (now left). cbn. rewrite IH by (intros; apply H; now right).
  reflexivity.
Qed.

Lemma unravel_index_ok (shape : nat * nat * nat) (indices : list nat) :
  (forall g, In g indices -> g < np_prod shape) ->
  unravel_index indices shape = Ok (map (unravel shape) indices).
Proof.
  intros H. apply mapM_ok. intros g Hg. now apply unravel_index1_ok, H.
Qed.

(** Row-major order: the triple of [g] lies inside the shape and ravels back
    to [g]. *)
Lemma ravel_unravel (nx ny nz g : nat) :
  g < nx * ny * nz ->
  let '(i, j, k) := unravel (nx, ny, nz) g in
  i < nx /\ j < ny /\ k < nz /\ ravel (nx, ny, nz) (i, j, k) = g.
Proof.
  intros Hg. unfold unravel, ravel.
  assert (Hnz : nz <> 0) by (intros ->; lia).
  assert (Hny : ny <> 0) by (intros ->; lia).
  assert (H1 : g / nz < nx * ny).
  { apply Nat.Div0.div_lt_upper_bound. lia. }
  assert (H2 : g / nz / ny < nx).
  { apply Nat.Div0.div_lt_upper_bound. lia. }
  repeat split.
  - exact H2.
  - now apply Nat.mod_upper_bound.
  - now apply Nat.mod_upper_bound.
  - pose proof (Nat.div_mod_eq (g / nz) ny) as E1.
    pose proof (Nat.div_mod_eq g nz) as E2. nia.
Qed.

Lemma unravel_ravel (nx ny nz i j k : nat) :
  j < ny -> k < nz -> unravel (nx, ny, nz) (ravel (nx, ny, nz) (i, j, k)) = (i, j, k).
Proof.
  intros Hj Hk. unfold unravel, ravel.
  assert (E1 : ((i * ny + j) * nz + k) / nz = i * ny + j).
  { rewrite Nat.div_add_l by lia. rewrite (Nat.div_small k nz) by lia. lia. }
  assert (E2 : ((i * ny + j) * nz + k) mod nz = k).
  { rewrite Nat.add_comm, Nat.Div0.mod_add. now apply Nat.mod_small. }
  rewrite E1, E2.
  rewrite Nat.div_add_l by lia. rewrite (Nat.div_small j ny) by lia.
  rewrite (Nat.add_comm (i * ny) j), Nat.Div0.mod_add, (Nat.mod_small j ny) by lia.
  repeat f_equal. lia.
Qed.

Lemma index_by_unravel (density : ndarray3 Q) (indices : list nat) :
  index_by density (map (unravel (nd_shape density)) indices)
  = map (density_at density) indices.
Proof. unfold index_by. rewrite map_map. reflexivity. Qed.


(** ** Blocks of mode 'all' *)

Lemma ceil_div_spec (total n : nat) :
  0 < n ->
  let nb := (total + n - 1) / n in
  ceil_div total n = Ok nb /\ total <= nb * n /\ (0 < nb -> (nb - 1) * n < total).
Proof.
  intros Hn nb. unfold ceil_div.
  destruct (Nat.eqb_spec n 0) as [E|_]; [lia|].
  split; [reflexivity|].
  pose proof (Nat.div_mod_eq (total + n - 1) n) as Hdm.
  pose proof (Nat.mod_upper_bound (total + n - 1) n ltac:(lia)) as Hr.
  fold nb in Hdm. split; [nia|]. intros Hnb. nia.
Qed.

Lemma block_choice_all_block (total n i : nat) :
  0 < n ->
  let nb := (total + n - 1) / n in
  i < nb ->
  block_choice nb n total i = all_block total n i /\
  0 < length (all_block total n i) <= n /\
  (forall g, In g (all_block total n i) -> g < total).
Proof.
  intros Hn nb Hi.
  destruct (ceil_div_spec total n Hn) as [_ [Hup Hlow]]. fold nb in Hup, Hlow.
  specialize (Hlow ltac:(lia)).
  assert (Hin : i * n < total) by nia.
  unfold block_choice, all_block, np_arange. repeat split.
  - destruct (Nat.eqb_spec i (nb - 1)) as [E|E].
    + f_equal. subst i. nia.
    + f_equal. assert (i + 1 <= nb - 1) by lia. nia.
  - rewrite length_seq. lia.
  - rewrite length_seq. lia.
  - intros g Hg. apply in_seq in Hg. lia.
Qed.

Lemma concat_all_blocks_upto (total n k : nat) :
  concat (map (all_block total n) (seq 0 k)) = seq 0 (Nat.min (k * n) total).
Proof.
  induction k as [|k IH]; [reflexivity|].
  rewrite seq_S, map_app, concat_app, IH. cbn [map concat]. rewrite app_nil_r.
  rewrite Nat.add_0_l.
  unfold all_block. destruct (Nat.le_gt_cases (k * n) total) as [Hle|Hgt].
  - rewrite (Nat.min_l (k * n) total) by lia.
    rewrite <- seq_app. f_equal. nia.
  - rewrite (Nat.min_r (k * n) total) by lia.
    replace (total - k * n) with 0 by lia. rewrite Nat.min_0_r. cbn [seq].
    rewrite app_nil_r. f_equal. nia.
Qed.

Lemma concat_all_blocks (total n : nat) :
  0 < n ->
  concat (map (all_block total n) (seq 0 ((total + n - 1) / n))) = seq 0 total.
Proof.
  intros Hn. rewrite concat_all_blocks_upto.
  destruct (ceil_div_spec total n Hn) as [_ [Hup _]]. f_equal. lia.
Qed.

Lemma mapM_ext {A B : Type} (f g : A -> result B) (l : list A) :
  (forall x, In x l -> f x = g x) -> mapM f l = mapM g l.
Proof.
  induction l as [|x l IH]; intros H; simpl; [reflexivity|].
  rewrite (H x) by (now left). rewrite IH by (intros; apply H; now right).
  reflexivity.
Qed.

Lemma get_edges_from_choice_shape {K : TorchFloat}
    nbl self probe_choice grid_pos atoms incl r :
  get_edges_from_choice nbl self probe_choice grid_pos atoms incl = Ok r ->
  res_pos r = index_by grid_pos probe_choice /\
  res_numbers r = get_atomic_numbers atoms ++ repeat 0%Z (length probe_choice).
Proof.
  unfold get_edges_from_choice.
  destruct (if String.eqb _ "ASE" then _ else _) as [[ei offs]|]; [|discriminate].
  cbn [rbind]. intros [= <-]. split; [reflexivity|].
  unfold res_numbers, get_atomic_numbers, Atoms_extend. cbn [fst snd atoms_sites].
  rewrite map_app. f_equal.
  unfold index_by. rewrite length_map.
  induction probe_choice as [|t l IH]; [reflexivity|]. cbn. now rewrite IH.
Qed.

Section AllMode.
Context {K : TorchFloat}.
Variable nbl : neighbor_list.
Variable self : ProbeGraphAdder.
Variable grid_pos : ndarray3 vec3.
Variable atoms : Atoms.

Lemma for_loop_block_body (nb n total : nat) (range : list nat) pe po an pp :
  for_loop (block_body nbl self grid_pos atoms nb n total) (pe, po, an, pp) range =
  (let! rs := mapM (block_edges nbl self grid_pos atoms nb n total) range in
   Ok (pe ++ concat (map (shift_block n) (combine range rs)),
       po ++ concat (map res_offsets rs),
       an ++ concat (map (fun r => repeat 0%Z (length (res_pos r))) rs),
       pp ++ concat (map res_pos rs))).
Proof.
  revert pe po an pp. induction range as [|i range IH]; intros pe po an pp.
  - cbn. now rewrite !app_nil_r.
  - cbn [for_loop mapM]. unfold block_body at 1. unfold block_edges at 1.
    destruct (unravel_index _ _) as [choice|]; [|reflexivity]. cbn [rbind].
    destruct (get_edges_from_choice _ _ _ _ _ _) as [[[[ne no] nn] np]|];
      [|reflexivity].
    cbn [rbind]. rewrite IH.
    destruct (mapM _ range) as [rs|]; [|reflexivity].
    cbn [rbind combine map concat]. unfold shift_block at 2.
    cbn [fst snd res_edges res_offsets res_pos].
    now rewrite <- !app_assoc.
Qed.

Lemma mapM_blocks_pos (shape : nat * nat * nat) (total n : nat) (range : list nat) rs :
  mapM (fun i => get_edges_from_choice nbl self
                   (map (unravel shape) (all_block total n i)) grid_pos atoms
                   (self_include_atomic_edges self)) range = Ok rs ->
  concat (map res_pos rs)
    = index_by grid_pos (map (unravel shape) (concat (map (all_block total n) range))) /\
  concat (map (fun r => repeat 0%Z (length (res_pos r))) rs)
    = repeat 0%Z (length (concat (map (all_block total n) range))).
Proof.
  revert rs. induction range as [|i range IH]; intros rs; cbn [mapM].
  - intros [= <-]. split; reflexivity.
  - destruct (get_edges_from_choice _ _ _ _ _ _) as [r|] eqn:Hr; [|discriminate].
    cbn [rbind]. destruct (mapM _ range) as [rs'|]; [|discriminate].
    cbn [rbind]. intros [= <-].
    destruct (IH rs' eq_refl) as [IH1 IH2].
    apply get_edges_from_choice_shape in Hr as [Hpos _].
    cbn [map concat]. rewrite IH1, IH2, Hpos. split.
    + unfold index_by. now rewrite !map_app.
    + rewrite length_app, repeat_app. f_equal.
      unfold index_by. now rewrite !length_map.
Qed.
End AllMode.

Lemma calculate_grid_pos_shape (shape : nat * nat * nat) (cell : mat3) :
  nd_shape (calculate_grid_pos shape cell) = shape.
Proof. unfold calculate_grid_pos. now destruct shape as [[nx ny] nz]. Qed.

Lemma Atoms_new_positions numbers positions cell pbc atoms :
  Atoms_new numbers positions cell pbc = Ok atoms ->
  get_positions atoms = positions /\ get_atomic_numbers atoms = numbers.
Proof.
  unfold Atoms_new. destruct (Nat.eqb_spec (length numbers) (length positions)) as [E|E];
    [|discriminate].
  intros [= <-]. unfold get_positions, get_atomic_numbers. cbn [atoms_sites].
  clear cell pbc. revert positions E.
  induction numbers as [|z numbers IH]; intros [|p positions] E; try discriminate.
  - split; reflexivity.
  - cbn. injection E as E. destruct (IH positions E) as [-> ->]. split; reflexivity.
Qed.

(** ** The cutoff and the offset sign in the cell-list wrapper *)

Lemma AseNeighborListWrapper_get_all_neighbors_any_cutoff (self : AseNeighborListWrapper)
    (cutoff cutoff' : Q) (include_atomic_edges : bool) :
  AseNeighborListWrapper_get_all_neighbors self cutoff include_atomic_edges
  = AseNeighborListWrapper_get_all_neighbors self cutoff' include_atomic_edges.
Proof. reflexivity. Qed.

Lemma ase_collect_offsets (self : AseNeighborListWrapper) (i : nat)
    (results : list (list (nat * ivec3))) pe po :
  ase_collect self true i results = Ok (pe, po) ->
  concat po = concat (map (map snd) results).
Proof.
  revert i pe po. induction results as [|entries results IH]; intros i pe po; simpl.
  - intros [= <- <-]. reflexivity.
  - destruct (ase_collect _ _ (S i) results) as [[pe' po']|] eqn:Hrec; [|discriminate].
    cbn. intros [= <- <-]. simpl. now rewrite (IH _ _ _ Hrec).
Qed.

(** With atomic edges included, the offsets handed out are the library's
    stored offsets, entry for entry. *)
Lemma AseNeighborListWrapper_get_all_neighbors_offsets (self : AseNeighborListWrapper)
    (cutoff : Q) ei offs :
  AseNeighborListWrapper_get_all_neighbors self cutoff true = Ok (ei, offs) ->
  offs = concat (map (fun i => map snd (ase_neighborlist self i))
                     (seq 0 (ase_num_atoms self))).
Proof.
  unfold AseNeighborListWrapper_get_all_neighbors.
  destruct (ase_collect _ _ 0 _) as [[pe po]|] eqn:Hc; [|discriminate].
  cbn. destruct pe; [discriminate|]. intros [= <- <-].
  rewrite (ase_collect_offsets _ _ _ _ _ Hc). now rewrite map_map.
Qed.

(** C1.  One atom at the origin of a 10x10x10 cell, one probe at the grid
    point (0,0,9), cutoff 2.  The probe's image one cell down the third axis
    is at squared distance 1, inside (epsilon, cutoff^2]; the radius graph,
    built with its default pbc (no replication along the third axis), returns
    no edge, while it finds the edge when told the cell is periodic along all
    three axes, as does the cell-list strategy. *)
Theorem C1_radius_graph_misses_third_axis_image :
  (exists d,
     edge_distance_sqr (get_positions atoms_z) (get_cell atoms_z) (0, 1, (0, 0, 1)%Z)
       = Some d /\ (epsilon < d)%Q /\ (d <= 2 * 2)%Q) /\
  RadiusGraphPBCWrapper_init 2 atoms_z rg_default_pbc = Ok (mkRGPBC 2 [] []) /\
  RadiusGraphPBCWrapper_init 2 atoms_z (true, true, true)
    = Ok (mkRGPBC 2 [(0, 1)] [(0, 0, 1)%Z]) /\
  (exists pd,
     build_probe_data primitive_neighbor_list (adder0 "RGPBC") host0
                      None None None None (fun _ => 0) = Ok pd /\
     pd_edge_index pd = Some [] /\ pd_neighbors pd = Some 0) /\
  (exists pd,
     build_probe_data primitive_neighbor_list (adder0 "ASE") host0
                      None None None None (fun _ => 0) = Ok pd /\
     pd_edge_index pd = Some [(0, 1)]).
Proof.
  split; [|split; [|split; [|split]]].
  - eexists. split; [vm_compute; reflexivity|]. split; q_decide.
  - vm_compute. reflexivity.
  - vm_compute. reflexivity.
  - eexists. split; [vm_compute; reflexivity|]. split; reflexivity.
  - eexists. split; [vm_compute; reflexivity|]. reflexivity.
Qed.

(** C3.  For the same structure the library stores the neighbour entry
    (1, (0,0,-1)) for atom 0.  [get_neighbors] hands it out negated;
    [get_all_neighbors], and with it the assembled record, hand out the
    library's offset as stored. *)
Theorem C3_get_all_neighbors_keeps_library_sign :
  let w := AseNeighborListWrapper_init primitive_neighbor_list 2 atoms_z in
  ase_neighborlist w 0 = [(1, (0, 0, -1)%Z)] /\
  AseNeighborListWrapper_get_neighbors w 0 2 = Ok [(1, (0, 0, 1)%Z)] /\
  AseNeighborListWrapper_get_all_neighbors w 2 false
    = Ok ([(0, 1)], [(0, 0, -1)%Z]) /\
  (exists pd,
     build_probe_data primitive_neighbor_list (adder0 "ASE") host0
                      None None None None (fun _ => 0) = Ok pd /\
     pd_edge_index pd = Some [(0, 1)] /\
     pd_cell_offsets pd = Some [(0, 0, -1)%Z]).
Proof.
  cbv zeta. split; [|split; [|split]].
  - vm_compute. reflexivity.
  - vm_compute. reflexivity.
  - vm_compute. reflexivity.
  - eexists. split; [vm_compute; reflexivity|]. split; reflexivity.
Qed.

(** C6.  A cell-list wrapper built for cutoff 2 and asked for all neighbours
    with cutoff 3 answers as if asked with cutoff 2; its [get_neighbors] and
    the radius-graph wrapper reject the same request. *)
Theorem C6_cell_list_ignores_cutoff_mismatch :
  let w := AseNeighborListWrapper_init primitive_neighbor_list 2 atoms_z in
  AseNeighborListWrapper_get_all_neighbors w 3 false = Ok ([(0, 1)], [(0, 0, -1)%Z]) /\
  AseNeighborListWrapper_get_all_neighbors w 3 false
    = AseNeighborListWrapper_get_all_neighbors w 2 false /\
  AseNeighborListWrapper_get_neighbors w 0 3 = Raise AssertionError /\
  rbind (RadiusGraphPBCWrapper_init 2 atoms_z rg_default_pbc)
        (fun wr => RadiusGraphPBCWrapper_get_all_neighbors wr 3 false)
    = Raise AssertionError.
Proof.
  cbv zeta. repeat split; vm_compute; reflexivity.
Qed.

(** ** Concrete runs *)

(** C2.  The cell-list strategy on the grid of [host0].  With the probe at
    grid point (0,0,0), on top of the atom, the record carries the edge
    between them with zero offset: its squared length is 0, not above
    epsilon; the radius graph leaves the pair out.  With the probe at grid
    point (0,0,9) the record carries the edge with the library's stored offset
    (0,0,-1): under the record's convention its squared length is 361, above
    the squared cutoff 4. *)
Theorem C2_cell_list_edge_distance :
  (exists pd pos d,
     build_probe_data primitive_neighbor_list (adder0 "ASE") host0
                      (Some 0) None None None (fun _ => 0) = Ok pd /\
     pd_edge_index pd = Some [(0, 1)] /\
     pd_cell_offsets pd = Some [(0, 0, 0)%Z] /\
     pd_pos pd = Some pos /\
     edge_distance_sqr pos (host_cell host0) (0, 1, (0, 0, 0)%Z) = Some d /\
     (d == 0)%Q /\ ~ (epsilon < d)%Q) /\
  (exists pd,
     build_probe_data primitive_neighbor_list (adder0 "RGPBC") host0
                      (Some 0) None None None (fun _ => 0) = Ok pd /\
     pd_edge_index pd = Some []) /\
  (exists pd pos d,
     build_probe_data primitive_neighbor_list (adder0 "ASE") host0
                      None None None None (fun _ => 0) = Ok pd /\
     pd_edge_index pd = Some [(0, 1)] /\
     pd_cell_offsets pd = Some [(0, 0, -1)%Z] /\
     pd_pos pd = Some pos /\
     edge_distance_sqr pos (host_cell host0) (0, 1, (0, 0, -1)%Z) = Some d /\
     (d == 361)%Q /\ ~ (d <= 2 * 2)%Q).
Proof.
  split; [|split].
  - do 3 eexists. split; [vm_compute; reflexivity|].
    split; [reflexivity|]. split; [reflexivity|]. split; [reflexivity|].
    split; [vm_compute; reflexivity|]. split; [reflexivity|].
    intros H. vm_compute in H. discriminate.
  - eexists. split; [vm_compute; reflexivity|]. reflexivity.
  - do 3 eexists. split; [vm_compute; reflexivity|].
    split; [reflexivity|]. split; [reflexivity|]. split; [reflexivity|].
    split; [vm_compute; reflexivity|]. split; [reflexivity|].
    intros H. vm_compute in H. apply H. reflexivity.
Qed.

(** The radius graph at the boundaries of its test.  With the probe at
    2.0000001 and cutoff 2 it hands out the edge, whose squared length is
    above 4: the position is rounded to 2 in single precision, where the
    squared length is 4.  With the atom at 4 and the probe at 4.01 it hands
    out the edge, whose squared length is 1e-4, not above epsilon: in single
    precision it is above. *)
Example radius_graph_rounds_positions :
  (exists w d f q,
     RadiusGraphPBCWrapper_init 2 atoms_far rg_default_pbc = Ok w /\
     In (0, 1, (0, 0, 0)%Z) (combine (rg_edge_index w) (rg_offsets w)) /\
     edge_distance_sqr (get_positions atoms_far) (get_cell atoms_far)
                       (0, 1, (0, 0, 0)%Z) = Some d /\
     ~ (d <= 2 * 2)%Q /\
     rg_edge_distance_sqr (get_positions atoms_far) (get_cell atoms_far)
                          (0, 1, (0, 0, 0)%Z) = Some f /\
     Q_of_binary32 f = Some q /\ (q == 4)%Q) /\
  (exists w d f q,
     RadiusGraphPBCWrapper_init 2 atoms_near rg_default_pbc = Ok w /\
     In (0, 1, (0, 0, 0)%Z) (combine (rg_edge_index w) (rg_offsets w)) /\
     edge_distance_sqr (get_positions atoms_near) (get_cell atoms_near)
                       (0, 1, (0, 0, 0)%Z) = Some d /\
     ~ (epsilon < d)%Q /\
     rg_edge_distance_sqr (get_positions atoms_near) (get_cell atoms_near)
                          (0, 1, (0, 0, 0)%Z) = Some f /\
     Q_of_binary32 f = Some q /\ (epsilon < q)%Q).
Proof.
  split.
  - do 4 eexists. split; [vm_compute; reflexivity|].
    split; [now left|]. split; [vm_compute; reflexivity|].
    split; [intros H; vm_compute in H; apply H; reflexivity|].
    split; [vm_compute; reflexivity|]. split; [vm_compute; reflexivity|].
    reflexivity.
  - do 4 eexists. split; [vm_compute; reflexivity|].
    split; [now left|]. split; [vm_compute; reflexivity|].
    split; [intros H; vm_compute in H; discriminate|].
    split; [vm_compute; reflexivity|]. split; [vm_compute; reflexivity|].
    reflexivity.
Qed.

(** C5.  Two atoms one apart, the whole grid of ten points in blocks of four,
    cell-list strategy with atomic edges.  Block 1 (grid points 4 to 7, none
    within the cutoff) reports the two edges between the atoms; the loop adds
    [i * num_probes] to the whole second row, so its edge (0, 1) enters the
    record as (0, 5).  Index 5 is the probe at grid point 3, three away from
    atom 0 with cutoff 2.  Moving only the probe-side indices leaves the edge
    at (0, 1). *)
Theorem C5_all_mode_moves_atom_targets :
  exists pd reference edge_index cell_offsets atomic_numbers pos expected,
    (exists probe_pos,
       get_edges_from_choice primitive_neighbor_list adder_all
         (map (unravel (1, 1, 10)) (all_block 10 4 1))
         (calculate_grid_pos (1, 1, 10) (host_cell host2)) atoms_h2 true
       = Ok ([(0, 1); (1, 0)], [(0, 0, 0)%Z; (0, 0, 0)%Z],
             [1%Z; 1%Z; 0%Z; 0%Z; 0%Z; 0%Z], probe_pos)) /\
    build_probe_data primitive_neighbor_list adder_all host2
                     None None None None (fun _ => 0) = Ok pd /\
    pd_edge_index pd = Some edge_index /\
    pd_cell_offsets pd = Some cell_offsets /\
    pd_atomic_numbers pd = Some atomic_numbers /\
    pd_pos pd = Some pos /\
    In (0, 5, (0, 0, 0)%Z) (combine edge_index cell_offsets) /\
    nth_error atomic_numbers 5 = Some 0%Z /\
    (exists d,
       edge_distance_sqr pos (host_cell host2) (0, 5, (0, 0, 0)%Z) = Some d /\
       (d == 9)%Q /\ ~ (d <= 2 * 2)%Q) /\
    all_mode_reference primitive_neighbor_list adder_all host2 atoms_h2
                       (host_charge_density host2) 4 = Ok reference /\
    pd_edge_index reference = Some expected /\
    ~ In (0, 5) expected /\
    edge_index <> expected.
Proof.
  do 7 eexists.
  split; [eexists; vm_compute; reflexivity|].
  split; [vm_compute; reflexivity|].
  split; [reflexivity|]. split; [reflexivity|]. split; [reflexivity|].
  split; [reflexivity|].
  split; [vm_compute; tauto|].
  split; [reflexivity|].
  split.
  { eexists. split; [vm_compute; reflexivity|].
    split; [reflexivity|]. intros H. vm_compute in H. apply H. reflexivity. }
  split; [vm_compute; reflexivity|].
  split; [reflexivity|].
  split.
  - vm_compute. intuition discriminate.
  - discriminate.
Qed.

(** C8.  A fresh record under the mode "bogus": the call fails only at the
    assembly step, on the variable no branch has assigned.  An unsupported
    implementation name is reported by an exception of its own.  With a
    stride the assembler rejects, the stride is what is reported, and a
    record that carries cell offsets comes back as it is: the mode is never
    looked at as such. *)
Theorem C8_unsupported_mode_is_not_reported :
  ProbeGraphAdder_call primitive_neighbor_list (adder0 "RGPBC")
    {[ 1%positive := host0 ]} 1%positive None None (Some "bogus"%string) None
    (fun _ => 0) = Raise UnboundLocalError /\
  ProbeGraphAdder_call primitive_neighbor_list (adder0 "bogus")
    {[ 1%positive := host0 ]} 1%positive None None None None
    (fun _ => 0) = Raise NotImplementedError /\
  ProbeGraphAdder_call primitive_neighbor_list (adder0 "RGPBC")
    {[ 1%positive := host0 ]} 1%positive None None (Some "bogus"%string) (Some 3)
    (fun _ => 0) = Raise AssertionError /\
  ProbeGraphAdder_call primitive_neighbor_list (adder0 "RGPBC")
    {[ 1%positive := host_pre ]} 1%positive None None (Some "bogus"%string) None
    (fun _ => 0) = Ok (1%positive, {[ 1%positive := host_pre ]}).
Proof.
  split; [reflexivity|]. split; [vm_compute; reflexivity|].
  split; reflexivity.
Qed.


Lemma C4_call_idempotent_witness :
  ProbeGraphAdder_call primitive_neighbor_list (adder0 "RGPBC")
    {[ 1%positive := host_pre ]} 1%positive None None None None (fun _ => 0)
    = Ok (1%positive, {[ 1%positive := host_pre ]}) /\
  forall self' slice_start' num_probes' mode' stride' rng',
    rbind (ProbeGraphAdder_call primitive_neighbor_list (adder0 "RGPBC")
             {[ 1%positive := host_pre ]} 1%positive None None None None (fun _ => 0))
          (fun r => ProbeGraphAdder_call primitive_neighbor_list self' (snd r) (fst r)
                      slice_start' num_probes' mode' stride' rng')
    = Ok (1%positive, {[ 1%positive := host_pre ]}).
Proof.
  apply (C4_call_idempotent primitive_neighbor_list (adder0 "RGPBC")
           {[ 1%positive := host_pre ]} 1%positive host_pre
           (mkProbeData None None None None None (Some []) (Some []) None) [] []);
    reflexivity.
Defined.

Lemma C10_call_frame_witness :
  1%positive = 1%positive /\
  (forall l, l <> 1%positive ->
     (<[ 1%positive := set_probe_data host0 pd0 ]> {[ 1%positive := host0 ]}
        : gmap loc HostRecord) !! l
     = ({[ 1%positive := host0 ]} : gmap loc HostRecord) !! l) /\
  exists obj' pd,
    (<[ 1%positive := set_probe_data host0 pd0 ]> {[ 1%positive := host0 ]}
       : gmap loc HostRecord) !! 1%positive = Some obj' /\
    host_probe_data obj' = Some pd /\
    host_atomic_numbers obj' = host_atomic_numbers host0 /\
    host_pos obj' = host_pos host0 /\
    host_cell obj' = host_cell host0 /\
    host_charge_density obj' = host_charge_density host0 /\
    host_attrs obj' = host_attrs host0.
Proof.
  apply (C10_call_frame primitive_neighbor_list (adder0 "RGPBC")
           {[ 1%positive := host0 ]}
           (<[ 1%positive := set_probe_data host0 pd0 ]> {[ 1%positive := host0 ]})
           1%positive 1%positive host0 None None None None (fun _ => 0)).
  - reflexivity.
  - reflexivity.
  - vm_compute. reflexivity.
Defined.

Lemma unsupported_mode_raises_witness :
  exists e,
    ProbeGraphAdder_call primitive_neighbor_list (adder0 "RGPBC")
      {[ 1%positive := host0 ]} 1%positive None None (Some "bogus"%string) None
      (fun _ => 0) = Raise e /\
    (length (host_atomic_numbers host0) = length (host_pos host0) ->
     In (default (self_stride (adder0 "RGPBC")) None) [1; 2; 4] ->
     e = UnboundLocalError).
Proof.
  apply (unsupported_mode_raises primitive_neighbor_list (adder0 "RGPBC")
           {[ 1%positive := host0 ]} 1%positive host0 None None
           (Some "bogus"%string) None (fun _ => 0)).
  - reflexivity.
  - reflexivity.
  - simpl. discriminate.
  - simpl. discriminate.
  - simpl. discriminate.
Defined.



(** ** The replication count and the isolated-atom scenario *)

(** For a non-negative radius, [ceil_radius_norm radius v] is the least
    non-negative integer [n] with [radius^2 * |v|^2 <= n^2], that is the
    ceiling of [radius * |v|]. *)
Lemma ceil_radius_norm_spec (radius : Q) (v : vec3) :
  (0 <= radius)%Q ->
  let n := ceil_radius_norm radius v in
  let q := (radius * radius * sum_sqr v)%Q in
  (0 <= n)%Z /\
  (q <= inject_Z (n * n))%Q /\
  ((0 < n)%Z -> (inject_Z ((n - 1) * (n - 1)) < q)%Q).
Proof.
  intros Hr n q. unfold n, ceil_radius_norm. fold q.
  apply Qle_bool_iff in Hr. rewrite Hr.
  pose proof (Qle_ceiling q) as Hup. pose proof (Qceiling_lt q) as Hlow.
  set (m := Qceiling q) in *.
  destruct (Z_lt_le_dec 0 m) as [Hm|Hm].
  - pose proof (Z.sqrt_up_spec m Hm) as [H1 H2].
    rewrite <- Z.sub_1_r in H1.
    split; [apply Z.sqrt_up_nonneg|]. split.
    + eapply Qle_trans; [exact Hup|]. rewrite <- Zle_Qle. exact H2.
    + intros _. eapply Qle_lt_trans; [|exact Hlow]. rewrite <- Zle_Qle. lia.
  - rewrite (Z.sqrt_up_eqn0 m Hm). split; [lia|]. split.
    + eapply Qle_trans; [exact Hup|]. rewrite <- Zle_Qle. lia.
    + intros H. lia.
Qed.

(** One atom at the origin of a 10x10x10 cell, cutoff 2, one probe at
    distance 1 along the first axis: one edge, zero offset, under both
    strategies. *)
Example isolated_atom_half_cutoff :
  let atoms :=
    mkAtoms [(1%Z, (0, 0, 0)%Q); (0%Z, (1, 0, 0)%Q)] (diag 10) (true, true, true) in
  RadiusGraphPBCWrapper_init 2 atoms rg_default_pbc
    = Ok (mkRGPBC 2 [(0, 1)] [(0, 0, 0)%Z]) /\
  AseNeighborListWrapper_get_all_neighbors
    (AseNeighborListWrapper_init primitive_neighbor_list 2 atoms) 2 false
    = Ok ([(0, 1)], [(0, 0, 0)%Z]).
Proof. split; vm_compute; reflexivity. Qed.

(** The same with the probe at distance 4: no edge. *)
Example isolated_atom_twice_cutoff :
  let atoms :=
    mkAtoms [(1%Z, (0, 0, 0)%Q); (0%Z, (4, 0, 0)%Q)] (diag 10) (true, true, true) in
  RadiusGraphPBCWrapper_init 2 atoms rg_default_pbc = Ok (mkRGPBC 2 [] []) /\
  AseNeighborListWrapper_get_all_neighbors
    (AseNeighborListWrapper_init primitive_neighbor_list 2 atoms) 2 false
    = Ok ([], []).
Proof. split; vm_compute; reflexivity. Qed.

(** * Further properties of the engine and the assembler *)

(** ** The radius graph, edge by edge *)

Lemma in_int_range (lo hi x : Z) : In x (int_range lo hi) <-> (lo <= x < hi)%Z.
Proof.
  unfold int_range. rewrite in_map_iff. split.
  - intros [k [<- Hk]]. apply in_seq in Hk. lia.
  - intros Hx. exists (Z.to_nat (x - lo)). split; [lia|]. apply in_seq. lia.
Qed.

Lemma in_cartesian_prod (a b c : list Z) (x y z : Z) :
  In (x, y, z) (cartesian_prod a b c) <-> In x a /\ In y b /\ In z c.
Proof.
  unfold cartesian_prod. rewrite in_flat_map. split.
  - intros [x' [Hx H]]. apply in_flat_map in H as [y' [Hy H]].
    apply in_map_iff in H as [z' [[= -> -> ->] Hz]]. tauto.
  - intros [Hx [Hy Hz]]. exists x. split; [exact Hx|].
    apply in_flat_map. exists y. split; [exact Hy|].
    apply in_map_iff. exists z. tauto.
Qed.

Lemma in_rg_unit_cell (reps : Z * Z * Z) (u : ivec3) :
  In u (rg_unit_cell (fst (fst reps)) (snd (fst reps)) (snd reps)) <-> in_box reps u.
Proof.
  destruct reps as [[r1 r2] r3], u as [[u1 u2] u3]. unfold rg_unit_cell, in_box.
  cbn [fst snd]. rewrite in_cartesian_prod, !in_int_range. lia.
Qed.

Lemma enum_In_conv {A : Type} (l : list A) (n i : nat) (x : A) :
  nth_error l i = Some x -> In (n + i, x) (combine (seq n (length l)) l).
Proof.
  revert n i. induction l as [|y l IH]; intros n [|i]; simpl; try discriminate.
  - intros [= ->]. left. f_equal. lia.
  - intros H. right. replace (n + S i) with (S n + i) by lia. now apply IH.
Qed.

Lemma rg_rows_In_conv (atoms : Atoms) (U : list ivec3) (s t : nat) (zs : Z)
    (ps pt : vec3) (u : ivec3) :
  nth_error (atoms_sites atoms) s = Some (zs, ps) -> zs <> 0%Z ->
  nth_error (atoms_sites atoms) t = Some (0%Z, pt) ->
  In u U ->
  In ((s, (zs, ps)), (t, (0%Z, pt)), u) (rg_rows atoms U).
Proof.
  intros Hs Hz Ht Hu. unfold rg_rows. rewrite !in_prod_iff, !List.filter_In.
  unfold enum_sites, site_is_probe. cbn [fst snd].
  apply (enum_In_conv _ 0) in Hs, Ht. repeat split; try assumption.
  destruct (Z.eqb_spec 0 zs); [congruence|reflexivity].
Qed.

(** X1.  The radius graph contains the edge (s, t, off) exactly when s is a
    site of non-zero species, t a site of species 0, the translation -off
    lies in the enumerated box of replications, and the squared distance
    between s and the image of t under -off, as the constructor computes it
    in single precision, passes its mask: at most the squared radius and
    above epsilon, as torch compares them. *)
Theorem radius_graph_edge_iff {K : TorchFloat}
    (radius : Q) (atoms : Atoms) (pbc : bool * bool * bool)
    (w : RadiusGraphPBCWrapper) :
  RadiusGraphPBCWrapper_init radius atoms pbc = Ok w ->
  exists reps,
    rg_replications radius (get_cell atoms) pbc = Ok reps /\
    forall s t off,
      In (s, t, off) (combine (rg_edge_index w) (rg_offsets w)) <->
      exists zs ps pt,
        nth_error (atoms_sites atoms) s = Some (zs, ps) /\ zs <> 0%Z /\
        nth_error (atoms_sites atoms) t = Some (0%Z, pt) /\
        in_box reps (ineg off) /\
        torch_le (rg_site_distance_sqr (get_cell atoms) ps pt (ineg off))
                 (radius * radius) = true /\
        torch_gt (rg_site_distance_sqr (get_cell atoms) ps pt (ineg off))
                 epsilon = true.
Proof.
  intros Hinit.
  destruct (RadiusGraphPBCWrapper_init_rows _ _ _ _ Hinit) as (reps & Hrep & _ & He & Ho).
  exists reps. split; [exact Hrep|].
  intros s t off. rewrite He, Ho, combine_map_same, in_map_iff. split.
  - intros [[[a p] u] [[= <- <- <-] Hin]].
    apply List.filter_In in Hin as [Hrow Hkeep].
    pose proof (rg_rows_In _ _ _ _ _ Hrow) as (Ha & Hza & Hp & Hzp & Hu).
    destruct a as [ia [za pa]], p as [ip [zp pp]]. cbn [fst snd] in *. subst zp.
    exists za, pa, pp. rewrite ineg_involutive.
    apply in_rg_unit_cell in Hu.
    unfold rg_keep, rg_mask, rg_distance_sqr in Hkeep. cbn [fst snd] in Hkeep.
    apply andb_true_iff in Hkeep. tauto.
  - intros (zs & ps & pt & Hs & Hz & Ht & Hbox & Hle & Hgt).
    exists ((s, (zs, ps)), (t, (0%Z, pt)), ineg off). split.
    + cbn [fst snd]. now rewrite ineg_involutive.
    + apply List.filter_In. split.
      * apply rg_rows_In_conv; try assumption.
        now apply in_rg_unit_cell.
      * unfold rg_keep, rg_mask, rg_distance_sqr. cbn [fst snd].
        now rewrite Hle, Hgt.
Qed.

Lemma radius_graph_edge_iff_witness :
  exists reps,
    rg_replications 2 (get_cell atoms1) rg_default_pbc = Ok reps /\
    forall s t off,
      In (s, t, off) (combine (rg_edge_index rg1) (rg_offsets rg1)) <->
      exists zs ps pt,
        nth_error (atoms_sites atoms1) s = Some (zs, ps) /\ zs <> 0%Z /\
        nth_error (atoms_sites atoms1) t = Some (0%Z, pt) /\
        in_box reps (ineg off) /\
        torch_le (rg_site_distance_sqr (get_cell atoms1) ps pt (ineg off))
                 (2 * 2) = true /\
        torch_gt (rg_site_distance_sqr (get_cell atoms1) ps pt (ineg off))
                 epsilon = true.
Proof.
  apply (radius_graph_edge_iff 2 atoms1 rg_default_pbc rg1).
  vm_compute. reflexivity.
Defined.

(** ** Every successful assembly, block by block *)

Lemma all_block_length (total n i : nat) :
  0 < n -> i + 1 < (total + n - 1) / n -> length (all_block total n i) = n.
Proof.
  intros Hn Hi. destruct (ceil_div_spec total n Hn) as [_ [_ Hlow]].
  specialize (Hlow ltac:(lia)).
  unfold all_block. rewrite length_seq.
  assert ((i + 1) * n <= ((total + n - 1) / n - 1) * n) by (apply Nat.mul_le_mono_r; lia).
  lia.
Qed.

Lemma shifted_edges_all_blocks {K : TorchFloat} nbl self grid_pos atoms shape total n :
  0 < n ->
  forall k i rs,
    i + k <= (total + n - 1) / n ->
    mapM (fun i => get_edges_from_choice nbl self
                     (map (unravel shape) (all_block total n i)) grid_pos atoms
                     (self_include_atomic_edges self)) (seq i k) = Ok rs ->
    concat (map (shift_block n) (combine (seq i k) rs)) = shifted_edges (i * n) rs.
Proof.
  intros Hn. induction k as [|k IH]; intros i rs Hik; cbn [seq mapM].
  - intros [= <-]. reflexivity.
  - destruct (get_edges_from_choice _ _ _ _ _ _) as [r|] eqn:Hr; [|discriminate].
    cbn [rbind]. destruct (mapM _ (seq (S i) k)) as [rs'|] eqn:Hrs; [|discriminate].
    cbn [rbind]. intros [= <-]. cbn [combine map concat shifted_edges].
    unfold shift_block at 1. cbn [fst snd]. f_equal.
    destruct k as [|k'].
    { cbn in Hrs. injection Hrs as <-. reflexivity. }
    rewrite (IH (S i) rs') by (exact Hrs || lia). f_equal.
    apply get_edges_from_choice_shape in Hr as [Hpos _].
    rewrite Hpos. unfold index_by. rewrite !length_map.
    rewrite all_block_length by lia. lia.
Qed.

Lemma mapM_Forall2 {A B : Type} (f : A -> result B) (l : list A) (rs : list B) :
  mapM f l = Ok rs -> List.Forall2 (fun x r => f x = Ok r) l rs.
Proof.
  revert rs. induction l as [|x l IH]; intros rs; cbn [mapM].
  - intros [= <-]. constructor.
  - destruct (f x) as [r|] eqn:Hr; [|discriminate]. cbn [rbind].
    destruct (mapM f l) as [rs'|]; [|discriminate]. cbn [rbind].
    intros [= <-]. constructor; [exact Hr|now apply IH].
Qed.

Lemma unravel_in_shape (shape : nat * nat * nat) (g : nat) :
  g < np_prod shape -> in_shape shape (unravel shape g).
Proof.
  destruct shape as [[nx ny] nz]. intros Hg. unfold np_prod in Hg.
  pose proof (ravel_unravel nx ny nz g Hg) as H. unfold in_shape.
  destruct (unravel (nx, ny, nz) g) as [[i j] k]. tauto.
Qed.

Lemma shifted_edges_zero_single (r : engine_result) :
  shifted_edges 0 [r] = res_edges r.
Proof.
  cbn [shifted_edges]. rewrite app_nil_r.
  rewrite <- (map_id (res_edges r)) at 2. apply map_ext.
  intros [s t]. cbn [fst snd]. now rewrite Nat.add_0_r.
Qed.

(** A single run of the engine, as the random and slice branches do it. *)
Lemma record_of_single {K : TorchFloat} nbl self obj atoms density probe_choice r :
  Atoms_new (host_atomic_numbers obj) (host_pos obj) (host_cell obj) (true, true, true)
    = Ok atoms ->
  get_edges_from_choice nbl self probe_choice
    (calculate_grid_pos (nd_shape density) (host_cell obj)) atoms
    (self_include_atomic_edges self) = Ok r ->
  mkProbeData (Some (host_cell obj)) (Some (res_numbers r))
              (Some (length (res_numbers r)))
              (Some (host_pos obj ++ res_pos r))
              (Some (index_by density probe_choice))
              (Some (res_edges r)) (Some (res_offsets r))
              (Some (length (res_edges r)))
  = record_of obj density (calculate_grid_pos (nd_shape density) (host_cell obj))
              [probe_choice] [r].
Proof.
  intros Hatoms Hr. unfold record_of.
  apply get_edges_from_choice_shape in Hr as [Hpos Hnum].
  apply Atoms_new_positions in Hatoms as [_ Hn].
  cbn [concat map]. rewrite !app_nil_r, shifted_edges_zero_single.
  now rewrite Hpos, Hnum, Hn.
Qed.

Lemma unravel_index_in_shape (indices : list nat) (shape : nat * nat * nat)
    (choice : list (nat * nat * nat)) :
  unravel_index indices shape = Ok choice -> Forall (in_shape shape) choice.
Proof.
  unfold unravel_index. revert choice.
  induction indices as [|g l IH]; intros choice; cbn [mapM].
  - intros [= <-]. constructor.
  - destruct (unravel_index1 shape g) as [t|] eqn:Ht; [|discriminate]. cbn [rbind].
    destruct (mapM _ l) as [ts|]; [|discriminate]. cbn [rbind]. intros [= <-].
    constructor; [|now apply IH].
    destruct (Nat.lt_ge_cases g (np_prod shape)) as [Hlt|Hge].
    + rewrite (unravel_index1_ok _ _ Hlt) in Ht. injection Ht as <-.
      now apply unravel_in_shape.
    + rewrite (unravel_index1_out _ _ Hge) in Ht. discriminate.
Qed.

(** Whatever the mode, a record that is built is the record of engine runs on
    consecutive groups of grid points. *)
Lemma build_probe_data_blocks {K : TorchFloat} nbl self obj slice_start num_probes mode stride rng pd :
  build_probe_data nbl self obj slice_start num_probes mode stride rng = Ok pd ->
  exists atoms density blocks rs,
    Atoms_new (host_atomic_numbers obj) (host_pos obj) (host_cell obj) (true, true, true)
      = Ok atoms /\
    downsample (default (self_stride self) stride) (host_charge_density obj)
      = Ok density /\
    Forall (Forall (in_shape (nd_shape density))) blocks /\
    List.Forall2
      (fun choice r =>
         get_edges_from_choice nbl self choice
           (calculate_grid_pos (nd_shape density) (host_cell obj)) atoms
           (self_include_atomic_edges self) = Ok r)
      blocks rs /\
    pd = record_of obj density
           (calculate_grid_pos (nd_shape density) (host_cell obj)) blocks rs.
Proof.
  unfold build_probe_data.
  destruct (Atoms_new _ _ _ _) as [atoms|] eqn:Hatoms; [|discriminate]. cbn [rbind].
  destruct (downsample _ _) as [density|] eqn:Hdens; [|discriminate]. cbn [rbind].
  set (grid_pos := calculate_grid_pos (nd_shape density) (host_cell obj)).
  assert (Hshape : nd_shape grid_pos = nd_shape density)
    by apply calculate_grid_pos_shape.
  rewrite !Hshape.
  set (shape := nd_shape density). set (total := np_prod shape).
  set (m := default (self_mode self) mode).
  set (n := default (self_num_probes self) num_probes).
  intros Hbuild. exists atoms, density.
  destruct (String.eqb_spec m "random") as [Hm|Hrandom].
  { rewrite Hm in Hbuild.
    change (String.eqb "random" "slice") with false in Hbuild.
    change (String.eqb "random" "all") with false in Hbuild.
    unfold np_random_randint in Hbuild.
    destruct (Nat.eqb_spec n 0) as [En|En].
    { cbn [rbind unravel_index mapM] in Hbuild.
      destruct (get_edges_from_choice _ _ _ _ _ _) as [[[[pe po] an] pp]|] eqn:Hr;
        [|discriminate].
      cbn [rbind] in Hbuild. injection Hbuild as <-.
      exists [[]], [(pe, po, an, pp)].
      split; [reflexivity|]. split; [reflexivity|]. split; [|split].
      - repeat constructor.
      - constructor; [exact Hr|constructor].
      - exact (record_of_single _ _ _ _ _ _ _ Hatoms Hr). }
    destruct (Nat.eqb_spec total 0) as [E|E]; [discriminate|]. cbn [rbind] in Hbuild.
    rewrite (unravel_index_ok shape) in Hbuild.
    2:{ intros g Hg. apply in_map_iff in Hg as [t [<- _]].
        apply Nat.mod_upper_bound. exact E. }
    cbn [rbind] in Hbuild.
    destruct (get_edges_from_choice _ _ _ _ _ _) as [[[[pe po] an] pp]|] eqn:Hr;
      [|discriminate].
    cbn [rbind] in Hbuild. injection Hbuild as <-.
    exists [map (unravel shape) (map (fun t => rng t mod total) (seq 0 n))],
           [(pe, po, an, pp)].
    split; [reflexivity|]. split; [reflexivity|]. split; [|split].
    - constructor; [|constructor]. apply Forall_forall. intros t Ht.
      apply list_elem_of_In, in_map_iff in Ht as [g [<- Hg]].
      apply unravel_in_shape. apply in_map_iff in Hg as [x [<- _]].
      apply Nat.mod_upper_bound. exact E.
    - constructor; [exact Hr|constructor].
    - exact (record_of_single _ _ _ _ _ _ _ Hatoms Hr). }
  cbn [rbind] in Hbuild.
  destruct (String.eqb_spec m "slice") as [Hm|Hslice].
  { rewrite Hm in Hbuild.
    change (String.eqb "slice" "all") with false in Hbuild.
    destruct (unravel_index _ shape) as [choice|] eqn:Hchoice; [|discriminate].
    cbn [rbind] in Hbuild.
    destruct (get_edges_from_choice _ _ _ _ _ _) as [[[[pe po] an] pp]|] eqn:Hr;
      [|discriminate].
    cbn [rbind] in Hbuild. injection Hbuild as <-.
    exists [choice], [(pe, po, an, pp)]. split; [reflexivity|]. split; [reflexivity|].
    split; [|split].
    - constructor; [|constructor]. exact (unravel_index_in_shape _ _ _ Hchoice).
    - constructor; [exact Hr|constructor].
    - exact (record_of_single _ _ _ _ _ _ _ Hatoms Hr). }
  cbn [rbind] in Hbuild.
  destruct (String.eqb_spec m "all") as [Hm|Hall]; [|discriminate].
  unfold ceil_div in Hbuild.
  destruct (Nat.eqb_spec n 0) as [E|E].
  { destruct (total =? 0); discriminate. }
  assert (Hn : 0 < n) by lia. cbn [rbind] in Hbuild.
  set (nb := (total + n - 1) / n) in *.
  rewrite for_loop_block_body in Hbuild.
  rewrite (mapM_ext (block_edges nbl self grid_pos atoms nb n total)
             (fun i => get_edges_from_choice nbl self
                         (map (unravel shape) (all_block total n i)) grid_pos atoms
                         (self_include_atomic_edges self))) in Hbuild.
  2:{ intros i Hi. apply in_seq in Hi.
      destruct (block_choice_all_block total n i Hn ltac:(unfold nb in Hi; lia))
        as [H1 [_ H3]].
      unfold block_edges. fold nb in H1. rewrite H1, Hshape.
      rewrite (unravel_index_ok shape) by exact H3. reflexivity. }
  destruct (mapM _ (seq 0 nb)) as [rs|] eqn:Hrs; [|discriminate].
  cbn [rbind] in Hbuild.
  unfold np_arange in Hbuild. rewrite Nat.sub_0_r in Hbuild.
  rewrite (unravel_index_ok shape) in Hbuild
    by (intros g Hg; apply in_seq in Hg; unfold total; lia).
  cbn [rbind app] in Hbuild.
  destruct (Nat.eqb_spec nb 0) as [Enb|Enb]; [discriminate|].
  cbn [rbind] in Hbuild. injection Hbuild as <-.
  pose proof (concat_all_blocks total n Hn) as Hcat. fold nb in Hcat.
  destruct (mapM_blocks_pos _ _ _ _ _ _ _ _ _ Hrs) as [Hpos Hzeros].
  rewrite Hcat in Hpos, Hzeros. rewrite length_seq in Hzeros.
  pose proof (shifted_edges_all_blocks nbl self grid_pos atoms shape total n Hn
                nb 0 rs ltac:(unfold nb; lia) Hrs) as Hshift.
  cbn [Nat.mul] in Hshift.
  exists (map (fun i => map (unravel shape) (all_block total n i)) (seq 0 nb)), rs.
  split; [reflexivity|]. split; [reflexivity|].
  assert (Hblocks : concat (map (fun i => map (unravel shape) (all_block total n i))
                                (seq 0 nb))
                    = map (unravel shape) (seq 0 total)).
  { rewrite <- Hcat, concat_map, map_map. reflexivity. }
  split; [|split].
  - apply Forall_forall. intros b Hb.
    apply list_elem_of_In, in_map_iff in Hb as [i [<- Hi]]. apply in_seq in Hi.
    destruct (block_choice_all_block total n i Hn ltac:(unfold nb in Hi; lia))
      as [_ [_ H3]].
    apply Forall_forall. intros t Ht.
    apply list_elem_of_In, in_map_iff in Ht as [g [<- Hg]].
    apply unravel_in_shape. now apply H3.
  - apply mapM_Forall2 in Hrs. clear -Hrs.
    induction Hrs; cbn [map]; constructor; assumption.
  - unfold record_of. rewrite Hblocks, length_map, length_seq.
    rewrite <- Hshift, <- Hzeros. fold grid_pos. rewrite <- Hpos. reflexivity.
Qed.

Lemma get_edges_from_choice_aligned {K : TorchFloat} nbl self probe_choice grid_pos atoms incl r :
  get_edges_from_choice nbl self probe_choice grid_pos atoms incl = Ok r ->
  length (res_edges r) = length (res_offsets r).
Proof.
  unfold get_edges_from_choice.
  destruct (String.eqb (self_implementation self) "ASE").
  - destruct (AseNeighborListWrapper_get_all_neighbors _ _ _) as [[ei offs]|] eqn:Hall;
      [|discriminate].
    cbn [rbind]. intros [= <-].
    now apply AseNeighborListWrapper_get_all_neighbors_edges in Hall as [Hlen _].
  - destruct (String.eqb (self_implementation self) "RGPBC"); [|discriminate].
    destruct (RadiusGraphPBCWrapper_init _ _ _) as [w|] eqn:Hinit; [|discriminate].
    cbn [rbind]. unfold RadiusGraphPBCWrapper_get_all_neighbors.
    destruct (Qeq_bool _ _); [|discriminate]. cbn [rbind]. intros [= <-].
    destruct (RadiusGraphPBCWrapper_init_rows _ _ _ _ Hinit) as [reps [_ [_ [He Ho]]]].
    unfold res_edges, res_offsets. cbn [fst snd]. rewrite He, Ho.
    now rewrite !length_map.
Qed.

Lemma shifted_edges_length (P : list (nat * nat * nat) -> engine_result -> Prop)
    (blocks : list (list (nat * nat * nat))) (rs : list engine_result) (k : nat) :
  (forall c r, P c r -> length (res_edges r) = length (res_offsets r)) ->
  List.Forall2 P blocks rs ->
  length (shifted_edges k rs) = length (concat (map res_offsets rs)).
Proof.
  intros HP H. revert k. induction H as [|c r blocks rs Hcr H IH]; intros k.
  - reflexivity.
  - cbn [shifted_edges map concat]. rewrite !length_app, length_map, IH.
    now rewrite (HP c r Hcr).
Qed.

(** X3.  Every record the assembler builds, in whatever mode and with
    whichever strategy, is consistent in its counts: the atomic numbers are
    the host's followed by one zero per probe, there is one position per
    atomic number and one target per probe, natoms is their number, and
    neighbors is the number of edges, which is the number of offsets. *)
Theorem built_record_counts {K : TorchFloat}
    (nbl : neighbor_list) (self : ProbeGraphAdder) (obj : HostRecord)
    (slice_start num_probes : option nat) (mode : option string)
    (stride : option nat) (rng : nat -> nat) (pd : ProbeGraphRecord) :
  build_probe_data nbl self obj slice_start num_probes mode stride rng = Ok pd ->
  exists atomic_numbers pos target edge_index cell_offsets probe_pos,
    pd_atomic_numbers pd = Some atomic_numbers /\
    pd_pos pd = Some pos /\
    pd_target pd = Some target /\
    pd_edge_index pd = Some edge_index /\
    pd_cell_offsets pd = Some cell_offsets /\
    pd_cell pd = Some (host_cell obj) /\
    atomic_numbers = host_atomic_numbers obj ++ repeat 0%Z (length probe_pos) /\
    pos = host_pos obj ++ probe_pos /\
    length (host_atomic_numbers obj) = length (host_pos obj) /\
    length target = length probe_pos /\
    pd_natoms pd = Some (length pos) /\
    pd_neighbors pd = Some (length edge_index) /\
    length cell_offsets = length edge_index.
Proof.
  intros Hbuild.
  destruct (build_probe_data_blocks _ _ _ _ _ _ _ _ _ Hbuild)
    as (atoms & density & blocks & rs & Hatoms & _ & _ & Hrs & ->).
  unfold record_of. cbn [pd_atomic_numbers pd_pos pd_target pd_edge_index pd_cell_offsets
                         pd_cell pd_natoms pd_neighbors].
  set (grid_pos := calculate_grid_pos _ _).
  assert (Hlen : length (host_atomic_numbers obj) = length (host_pos obj)).
  { unfold Atoms_new in Hatoms.
    destruct (Nat.eqb_spec (length (host_atomic_numbers obj)) (length (host_pos obj)));
      [assumption|discriminate]. }
  eexists _, _, _, _, _, (index_by grid_pos (concat blocks)).
  repeat split; try reflexivity.
  - unfold index_by. now rewrite length_map.
  - exact Hlen.
  - unfold index_by. now rewrite !length_map.
  - rewrite !length_app, repeat_length. unfold index_by. rewrite length_map. now rewrite Hlen.
  - symmetry. eapply shifted_edges_length; [|exact Hrs].
    intros c r Hr. cbv beta in Hr. exact (get_edges_from_choice_aligned _ _ _ _ _ _ _ Hr).
Qed.

Lemma built_record_counts_witness :
  exists atomic_numbers pos target edge_index cell_offsets probe_pos,
    pd_atomic_numbers pd0 = Some atomic_numbers /\
    pd_pos pd0 = Some pos /\
    pd_target pd0 = Some target /\
    pd_edge_index pd0 = Some edge_index /\
    pd_cell_offsets pd0 = Some cell_offsets /\
    pd_cell pd0 = Some (host_cell host0) /\
    atomic_numbers = host_atomic_numbers host0 ++ repeat 0%Z (length probe_pos) /\
    pos = host_pos host0 ++ probe_pos /\
    length (host_atomic_numbers host0) = length (host_pos host0) /\
    length target = length probe_pos /\
    pd_natoms pd0 = Some (length pos) /\
    pd_neighbors pd0 = Some (length edge_index) /\
    length cell_offsets = length edge_index.
Proof.
  apply (built_record_counts primitive_neighbor_list (adder0 "RGPBC") host0
           None None None None (fun _ => 0) pd0).
  vm_compute. reflexivity.
Defined.

(** ** Where an edge of the record comes from *)

Lemma combine_app_aligned {A B : Type} (a a' : list A) (b b' : list B) :
  length a = length b -> combine (a ++ a') (b ++ b') = combine a b ++ combine a' b'.
Proof.
  revert b. induction a as [|x a IH]; intros [|y b] H; try discriminate; cbn.
  - reflexivity.
  - f_equal. apply IH. now injection H.
Qed.

Lemma combine_map_l {A A' B : Type} (f : A -> A') (l : list A) (m : list B) :
  combine (map f l) m = map (fun p => (f (fst p), snd p)) (combine l m).
Proof.
  revert m. induction l as [|x l IH]; intros [|y m]; cbn; try reflexivity.
  now rewrite IH.
Qed.

(** Each edge of the assembled list is an edge of one engine run, its probe
    side moved by the number of probes of the runs before it. *)
Lemma shifted_edges_In (P : list (nat * nat * nat) -> engine_result -> Prop)
    (blocks : list (list (nat * nat * nat))) (rs : list engine_result) :
  (forall c r, P c r ->
     length (res_edges r) = length (res_offsets r) /\ length (res_pos r) = length c) ->
  List.Forall2 P blocks rs ->
  forall k e,
    In e (combine (shifted_edges k rs) (concat (map res_offsets rs))) ->
    exists pre c post r s t off,
      blocks = pre ++ c :: post /\ P c r /\
      In (s, t, off) (combine (res_edges r) (res_offsets r)) /\
      e = (s, t + (k + length (concat pre)), off).
Proof.
  intros HP H. induction H as [|c r blocks rs Hcr H IH]; intros k e Hin.
  - destruct Hin.
  - destruct (HP c r Hcr) as [Hal Hlen].
    cbn [shifted_edges map concat] in Hin.
    rewrite combine_app_aligned in Hin by (now rewrite length_map).
    apply in_app_or in Hin as [Hin|Hin].
    + rewrite combine_map_l in Hin. apply in_map_iff in Hin as [[[s t] off] [<- Hin]].
      exists [], c, blocks, r, s, t, off. cbn [fst snd concat length app].
      rewrite Nat.add_0_r. auto.
    + destruct (IH _ _ Hin) as (pre & c' & post & r' & s & t & off & -> & Hp & Hin' & ->).
      exists (c :: pre), c', post, r', s, t, off. cbn [concat app].
      rewrite length_app, Hlen. repeat split; try assumption.
      do 2 f_equal. lia.
Qed.

Lemma probe_sites_snd (pp : list vec3) :
  map snd (combine (repeat 0%Z (length pp)) pp) = pp.
Proof. induction pp as [|p pp IH]; cbn; [reflexivity|now rewrite IH]. Qed.

Lemma probe_sites_fst (pp : list vec3) :
  map fst (combine (repeat 0%Z (length pp)) pp) = repeat 0%Z (length pp).
Proof. induction pp as [|p pp IH]; cbn; [reflexivity|now rewrite IH]. Qed.

Lemma nth_error_zero_tail (host : list Z) (n t : nat) :
  Forall (fun z => z <> 0%Z) host ->
  nth_error (host ++ repeat 0%Z n) t = Some 0%Z ->
  length host <= t < length host + n.
Proof.
  intros Hreal Ht.
  assert (Hlt : t < length (host ++ repeat 0%Z n)).
  { apply nth_error_Some. congruence. }
  rewrite length_app, repeat_length in Hlt. split; [|exact Hlt].
  destruct (Nat.lt_ge_cases t (length host)) as [Hin|]; [|assumption].
  rewrite nth_error_app1 in Ht by exact Hin.
  apply nth_error_In in Ht. rewrite List.Forall_forall in Hreal.
  now destruct (Hreal _ Ht).
Qed.

Lemma nth_error_real_head (host : list Z) (n s : nat) (z : Z) :
  nth_error (host ++ repeat 0%Z n) s = Some z -> z <> 0%Z -> s < length host.
Proof.
  intros Hs Hz.
  destruct (Nat.lt_ge_cases s (length host)) as [|Hge]; [assumption|].
  rewrite nth_error_app2 in Hs by exact Hge.
  apply nth_error_In, repeat_spec in Hs. congruence.
Qed.

(** One engine run: with real atoms of non-zero species, and either the
    radius graph or atomic edges excluded, every edge goes from an atom index
    to a probe index of the combined ordering. *)
Lemma get_edges_from_choice_range {K : TorchFloat} nbl self probe_choice grid_pos atoms incl r s t :
  Forall (fun z => z <> 0%Z) (get_atomic_numbers atoms) ->
  self_implementation self = "RGPBC"%string \/ incl = false ->
  get_edges_from_choice nbl self probe_choice grid_pos atoms incl = Ok r ->
  In (s, t) (res_edges r) ->
  s < length (atoms_sites atoms) /\
  length (atoms_sites atoms) <= t < length (atoms_sites atoms) + length probe_choice.
Proof.
  intros Hreal Hcfg Hget Hin.
  unfold get_edges_from_choice in Hget.
  set (awp := Atoms_extend atoms _) in Hget.
  assert (Hnums : get_atomic_numbers awp
                  = get_atomic_numbers atoms ++ repeat 0%Z (length probe_choice)).
  { unfold awp, Atoms_extend, get_atomic_numbers. cbn [atoms_sites].
    rewrite map_app, probe_sites_fst. unfold index_by. now rewrite length_map. }
  assert (Hlen : length (get_atomic_numbers atoms) = length (atoms_sites atoms))
    by (unfold get_atomic_numbers; now rewrite length_map).
  destruct (String.eqb_spec (self_implementation self) "ASE") as [Hase|Hase].
  - destruct Hcfg as [Hrg| ->]; [congruence|].
    destruct (AseNeighborListWrapper_get_all_neighbors _ _ _) as [[ei offs]|] eqn:Hall;
      [|discriminate].
    cbn [rbind] in Hget. injection Hget as <-. cbn [res_edges fst] in Hin.
    apply AseNeighborListWrapper_get_all_neighbors_edges in Hall as [_ Hall].
    destruct (Hall s t Hin) as [Hs Ht]. specialize (Ht eq_refl).
    unfold awp, Atoms_extend in Hs. cbn [atoms_sites] in Hs.
    rewrite (filter_real_atoms_extend _ _ Hreal) in Hs.
    rewrite Hnums in Ht. apply (nth_error_zero_tail _ _ _ Hreal) in Ht.
    rewrite Hlen in Ht. split; assumption.
  - destruct (String.eqb (self_implementation self) "RGPBC"); [|discriminate].
    destruct (RadiusGraphPBCWrapper_init _ awp _) as [w|] eqn:Hinit; [|discriminate].
    cbn [rbind] in Hget. unfold RadiusGraphPBCWrapper_get_all_neighbors in Hget.
    destruct (Qeq_bool _ _); [|discriminate].
    cbn [rbind] in Hget. injection Hget as <-. cbn [res_edges fst] in Hin.
    destruct (RadiusGraphPBCWrapper_init_species _ _ _ _ _ _ Hinit Hin)
      as [[z [Hs Hz]] Ht].
    rewrite Hnums in Hs, Ht.
    apply (nth_error_zero_tail _ _ _ Hreal) in Ht.
    apply nth_error_real_head in Hs; [|exact Hz].
    rewrite Hlen in Hs, Ht. split; assumption.
Qed.

Lemma In_combine_of_left {A B : Type} (l : list A) (m : list B) (x : A) :
  length l = length m -> In x l -> exists y, In (x, y) (combine l m).
Proof.
  revert m. induction l as [|a l IH]; intros [|b m] Hlen Hin; try discriminate.
  - destruct Hin.
  - destruct Hin as [->|Hin].
    + exists b. now left.
    + destruct (IH m ltac:(now injection Hlen) Hin) as [y Hy]. exists y. now right.
Qed.

Lemma engine_run_sizes {K : TorchFloat} nbl self grid_pos atoms incl c r :
  get_edges_from_choice nbl self c grid_pos atoms incl = Ok r ->
  length (res_edges r) = length (res_offsets r) /\ length (res_pos r) = length c.
Proof.
  intros Hr. split; [exact (get_edges_from_choice_aligned _ _ _ _ _ _ _ Hr)|].
  apply get_edges_from_choice_shape in Hr as [-> _].
  unfold index_by. now rewrite length_map.
Qed.

(** X4.  With real atoms of non-zero species, and either the radius-graph
    strategy or atomic edges excluded, every edge index pair of a built
    record, in every mode, goes from a host atom to a probe: the source lies
    among the host atoms, the target among the probes that follow them, and
    the record's atomic numbers are non-zero at the source and zero at the
    target. *)
Theorem built_record_edges_atom_to_probe {K : TorchFloat}
    (nbl : neighbor_list) (self : ProbeGraphAdder) (obj : HostRecord)
    (slice_start num_probes : option nat) (mode : option string)
    (stride : option nat) (rng : nat -> nat) (pd : ProbeGraphRecord) :
  build_probe_data nbl self obj slice_start num_probes mode stride rng = Ok pd ->
  Forall (fun z => z <> 0%Z) (host_atomic_numbers obj) ->
  self_implementation self = "RGPBC"%string \/ self_include_atomic_edges self = false ->
  exists edge_index atomic_numbers,
    pd_edge_index pd = Some edge_index /\
    pd_atomic_numbers pd = Some atomic_numbers /\
    forall s t, In (s, t) edge_index ->
      s < length (host_pos obj) /\
      length (host_pos obj) <= t < length atomic_numbers /\
      (exists z, nth_error atomic_numbers s = Some z /\ z <> 0%Z) /\
      nth_error atomic_numbers t = Some 0%Z.
Proof.
  intros Hbuild Hreal Hcfg.
  destruct (build_probe_data_blocks _ _ _ _ _ _ _ _ _ Hbuild)
    as (atoms & density & blocks & rs & Hatoms & _ & _ & Hrs & ->).
  unfold record_of. cbn [pd_edge_index pd_atomic_numbers].
  set (grid_pos := calculate_grid_pos _ _) in *.
  eexists _, _. split; [reflexivity|]. split; [reflexivity|].
  intros s t Hin.
  assert (Hal : length (shifted_edges 0 rs) = length (concat (map res_offsets rs))).
  { eapply shifted_edges_length; [|exact Hrs].
    intros c r Hr. cbv beta in Hr. exact (get_edges_from_choice_aligned _ _ _ _ _ _ _ Hr). }
  destruct (In_combine_of_left _ _ _ Hal Hin) as [off Hin'].
  destruct (shifted_edges_In _ _ _
              (fun c r Hr => engine_run_sizes _ _ _ _ _ _ _ Hr) Hrs 0 _ Hin')
    as (pre & c & post & r & s0 & t0 & off0 & -> & Hr & Hin0 & Heq).
  injection Heq as -> -> _.
  destruct (Atoms_new_positions _ _ _ _ _ Hatoms) as [Hpos Hnum].
  assert (HA : length (atoms_sites atoms) = length (host_pos obj)).
  { rewrite <- Hpos. unfold get_positions. now rewrite length_map. }
  rewrite <- Hnum in Hreal.
  apply in_combine_l in Hin0.
  destruct (get_edges_from_choice_range _ _ _ _ _ _ _ _ _ Hreal Hcfg Hr Hin0) as [Hs Ht].
  rewrite HA in Hs, Ht. rewrite Hnum in Hreal.
  assert (Hlen : length (host_atomic_numbers obj) = length (host_pos obj)).
  { rewrite <- Hnum, <- Hpos. unfold get_atomic_numbers, get_positions.
    now rewrite !length_map. }
  rewrite concat_app. cbn [concat]. rewrite !length_app, repeat_length, Hlen.
  split; [exact Hs|]. split; [lia|]. split.
  - rewrite nth_error_app1 by lia.
    destruct (nth_error (host_atomic_numbers obj) s0) as [z|] eqn:Hz.
    + exists z. split; [reflexivity|].
      apply nth_error_In in Hz. rewrite List.Forall_forall in Hreal. now apply Hreal.
    + apply nth_error_None in Hz. lia.
  - rewrite nth_error_app2 by lia. apply nth_error_repeat. lia.
Qed.

Lemma built_record_edges_atom_to_probe_witness :
  exists edge_index atomic_numbers,
    pd_edge_index pd_all = Some edge_index /\
    pd_atomic_numbers pd_all = Some atomic_numbers /\
    forall s t, In (s, t) edge_index ->
      s < length (host_pos host0) /\
      length (host_pos host0) <= t < length atomic_numbers /\
      (exists z, nth_error atomic_numbers s = Some z /\ z <> 0%Z) /\
      nth_error atomic_numbers t = Some 0%Z.
Proof.
  apply (built_record_edges_atom_to_probe primitive_neighbor_list (adder0 "RGPBC") host0
           None (Some 4) (Some "all"%string) None (fun _ => 0) pd_all).
  - vm_compute. reflexivity.
  - simpl. repeat constructor. discriminate.
  - left. reflexivity.
Defined.

Lemma shift_probe_side_block {K : TorchFloat} nbl self grid_pos atoms shape total n
    (range : list nat) (rs : list engine_result) :
  Forall (fun z => z <> 0%Z) (get_atomic_numbers atoms) ->
  self_implementation self = "RGPBC"%string \/ self_include_atomic_edges self = false ->
  mapM (fun i => get_edges_from_choice nbl self
                   (map (unravel shape) (all_block total n i)) grid_pos atoms
                   (self_include_atomic_edges self)) range = Ok rs ->
  map (shift_block n) (combine range rs)
  = map (shift_probe_side (length (atoms_sites atoms)) n) (combine range rs).
Proof.
  intros Hreal Hcfg. revert rs.
  induction range as [|i range IH]; intros rs; cbn [mapM].
  - intros [= <-]. reflexivity.
  - destruct (get_edges_from_choice _ _ _ _ _ _) as [r|] eqn:Hr; [|discriminate].
    cbn [rbind]. destruct (mapM _ range) as [rs'|]; [|discriminate].
    cbn [rbind]. intros [= <-]. cbn [combine map]. rewrite (IH rs' eq_refl). f_equal.
    unfold shift_block, shift_probe_side. cbn [fst snd].
    apply map_ext_in. intros [s t] Hin. cbn [fst snd].
    destruct (get_edges_from_choice_range _ _ _ _ _ _ _ _ _ Hreal Hcfg Hr Hin) as [_ [Ht _]].
    apply Nat.leb_le in Ht. now rewrite Ht.
Qed.

(** X18.  Mode 'all' with a positive block size on a non-empty grid, for real
    atoms of non-zero species and either the radius-graph strategy or atomic
    edges excluded.  The blocks the loop visits are the consecutive runs of
    [num_probes] flat indices (the last possibly shorter, none empty); put end
    to end they are 0, 1, ..., total-1, so every grid point is taken once and
    none twice.  The assembled record is the block-order concatenation of the
    per-block engine results with the probe-side indices of block [i] moved by
    [i * num_probes], and a probe-side index of block [i] so moved points, in
    the final atoms-then-probes ordering, at the probe it pointed at inside
    the block. *)
Theorem all_mode_matches_reference {K : TorchFloat}
    (nbl : neighbor_list) (self : ProbeGraphAdder) (obj : HostRecord)
    (slice_start num_probes : option nat) (mode : option string)
    (stride : option nat) (rng : nat -> nat)
    (atoms : Atoms) (density : ndarray3 Q) :
  default (self_mode self) mode = "all"%string ->
  Atoms_new (host_atomic_numbers obj) (host_pos obj) (host_cell obj) (true, true, true)
    = Ok atoms ->
  downsample (default (self_stride self) stride) (host_charge_density obj) = Ok density ->
  0 < default (self_num_probes self) num_probes ->
  0 < np_prod (nd_shape density) ->
  Forall (fun z => z <> 0%Z) (host_atomic_numbers obj) ->
  self_implementation self = "RGPBC"%string \/ self_include_atomic_edges self = false ->
  let n := default (self_num_probes self) num_probes in
  let shape := nd_shape density in
  let total := np_prod shape in
  let nb := (total + n - 1) / n in
  let grid_pos := calculate_grid_pos shape (host_cell obj) in
  ceil_div total n = Ok nb /\
  (forall i, i < nb ->
     block_choice nb n total i = all_block total n i /\
     0 < length (all_block total n i) <= n) /\
  concat (map (all_block total n) (seq 0 nb)) = seq 0 total /\
  List.NoDup (concat (map (all_block total n) (seq 0 nb))) /\
  (forall g, g < total <-> In g (concat (map (all_block total n) (seq 0 nb)))) /\
  build_probe_data nbl self obj slice_start num_probes mode stride rng
    = all_mode_reference nbl self obj atoms density n /\
  (forall i t, i < nb ->
     length (host_pos obj) <= t < length (host_pos obj) + length (all_block total n i) ->
     nth_error (host_pos obj
                ++ index_by grid_pos (map (unravel shape) (all_block total n i))) t
     = nth_error (host_pos obj
                  ++ index_by grid_pos (map (unravel shape) (seq 0 total)))
                 (t + i * n)).
Proof.
  intros Hmode Hatoms Hdens Hn Htotal Hreal Hcfg n shape total nb grid_pos.
  destruct (ceil_div_spec total n Hn) as [Hceil [Hup Hlow]]. fold nb in Hceil, Hup, Hlow.
  pose proof (concat_all_blocks total n Hn) as Hcat. fold nb in Hcat.
  split; [exact Hceil|]. split.
  { intros i Hi. destruct (block_choice_all_block total n i Hn Hi) as [H1 [H2 _]].
    split; assumption. }
  split; [exact Hcat|]. split; [rewrite Hcat; apply seq_NoDup|]. split.
  { intros g. rewrite Hcat, in_seq. lia. }
  split.
  - unfold build_probe_data, all_mode_reference.
    rewrite Hatoms, Hmode, Hdens.
    change (String.eqb "all" "random") with false.
    change (String.eqb "all" "slice") with false.
    change (String.eqb "all" "all") with true.
    cbn [rbind]. fold n shape total. rewrite Hceil. cbn [rbind]. fold grid_pos.
    rewrite for_loop_block_body.
    rewrite (mapM_ext (block_edges nbl self grid_pos atoms nb n total)
               (fun i => get_edges_from_choice nbl self
                           (map (unravel shape) (all_block total n i)) grid_pos atoms
                           (self_include_atomic_edges self))).
    2:{ intros i Hi. apply in_seq in Hi.
        destruct (block_choice_all_block total n i Hn ltac:(lia)) as [H1 [_ H3]].
        unfold block_edges. fold nb in H1. rewrite H1.
        unfold grid_pos. rewrite calculate_grid_pos_shape. fold grid_pos.
        rewrite (unravel_index_ok shape) by exact H3. reflexivity. }
    fold nb.
    destruct (mapM _ (seq 0 nb)) as [rs|] eqn:Hrs; [|reflexivity].
    cbn [rbind].
    destruct (mapM_blocks_pos _ _ _ _ _ _ _ _ _ Hrs) as [Hpos Hzeros].
    rewrite Hcat in Hpos, Hzeros. rewrite length_seq in Hzeros.
    unfold grid_pos at 1 2. rewrite calculate_grid_pos_shape. fold grid_pos. fold total.
    unfold np_arange. rewrite Nat.sub_0_r.
    rewrite (unravel_index_ok shape) by (intros g Hg; apply in_seq in Hg; unfold total; lia).
    destruct (Nat.eqb_spec nb 0) as [Enb|Enb].
    { exfalso. change (0 < total) in Htotal. rewrite Enb in Hup. lia. }
    destruct (Atoms_new_positions _ _ _ _ _ Hatoms) as [_ Hnum].
    assert (HA : length (host_atomic_numbers obj) = length (atoms_sites atoms)).
    { rewrite <- Hnum. unfold get_atomic_numbers. now rewrite length_map. }
    rewrite <- Hnum in Hreal.
    rewrite HA, (shift_probe_side_block _ _ _ _ _ _ _ _ _ Hreal Hcfg Hrs).
    cbn [rbind app]. rewrite Hpos, Hzeros, index_by_unravel. reflexivity.
  - intros i t Hi [Ht1 Ht2].
    destruct (block_choice_all_block total n i Hn Hi) as [_ [Hlen Hlt]].
    rewrite !nth_error_app2 by lia.
    unfold index_by. rewrite !nth_error_map.
    unfold all_block in *. rewrite length_seq in Ht2, Hlen.
    assert (Hin : i * n < total) by nia.
    rewrite (nth_error_nth' _ 0) by (rewrite length_seq; lia).
    rewrite (nth_error_nth' (seq 0 total) 0) by (rewrite length_seq; lia).
    rewrite !seq_nth by lia. do 3 f_equal. lia.
Qed.

Lemma all_mode_matches_reference_witness :
  pd_edge_index pd_all5 = Some [(0, 4); (0, 5); (0, 7); (0, 8)] /\
  build_probe_data primitive_neighbor_list (adder0 "RGPBC") host5
                   None (Some 4) (Some "all"%string) None (fun _ => 0) = Ok pd_all5 /\
  build_probe_data primitive_neighbor_list (adder0 "RGPBC") host5
                   None (Some 4) (Some "all"%string) None (fun _ => 0)
  = all_mode_reference primitive_neighbor_list (adder0 "RGPBC") host5
      (mkAtoms [(1%Z, (0, 0, 5)%Q)] (diag 10) (true, true, true))
      (host_charge_density host5) 4.
Proof.
  split; [reflexivity|]. split; [vm_compute; reflexivity|].
  apply (all_mode_matches_reference primitive_neighbor_list (adder0 "RGPBC") host5
           None (Some 4) (Some "all"%string) None (fun _ => 0)
           (mkAtoms [(1%Z, (0, 0, 5)%Q)] (diag 10) (true, true, true))
           (host_charge_density host5)).
  - reflexivity.
  - reflexivity.
  - reflexivity.
  - simpl. lia.
  - simpl. lia.
  - simpl. repeat constructor. discriminate.
  - left. reflexivity.
Defined.

Lemma nth_error_moved {A : Type} (h x c y : list A) (t : nat) :
  length h <= t < length h + length c ->
  nth_error (h ++ (x ++ c ++ y)) (t + length x) = nth_error (h ++ c) t.
Proof.
  intros Ht.
  rewrite (nth_error_app2 h (x ++ c ++ y)) by lia.
  rewrite (nth_error_app2 x (c ++ y)) by lia.
  rewrite (nth_error_app2 h c) by lia.
  rewrite (nth_error_app1 c y) by lia.
  f_equal. lia.
Qed.

Lemma nth_error_kept {A : Type} (h x c : list A) (s : nat) :
  s < length h -> nth_error (h ++ x) s = nth_error (h ++ c) s.
Proof. intros Hs. now rewrite !nth_error_app1 by lia. Qed.

(** One run of the radius graph inside the engine: single-precision lengths
    on the positions of that run. *)
Lemma get_edges_from_choice_rg_distance {K : TorchFloat} nbl self c grid_pos atoms incl r e :
  self_implementation self = "RGPBC"%string ->
  get_edges_from_choice nbl self c grid_pos atoms incl = Ok r ->
  In e (combine (res_edges r) (res_offsets r)) ->
  exists d,
    rg_edge_distance_sqr (get_positions atoms ++ index_by grid_pos c) (get_cell atoms) e
      = Some d /\
    torch_gt d epsilon = true /\
    torch_le d (self_cutoff self * self_cutoff self) = true.
Proof.
  intros Himpl Hget Hin. unfold get_edges_from_choice in Hget.
  set (awp := Atoms_extend atoms _) in Hget. rewrite Himpl in Hget.
  change (String.eqb "RGPBC" "ASE") with false in Hget.
  change (String.eqb "RGPBC" "RGPBC") with true in Hget.
  destruct (RadiusGraphPBCWrapper_init _ awp _) as [w|] eqn:Hinit; [|discriminate].
  cbn [rbind] in Hget. unfold RadiusGraphPBCWrapper_get_all_neighbors in Hget.
  destruct (Qeq_bool _ _); [|discriminate].
  cbn [rbind] in Hget. injection Hget as <-. cbn [res_edges res_offsets fst snd] in Hin.
  destruct (RadiusGraphPBCWrapper_init_rows _ _ _ _ Hinit) as [reps [_ [_ [He Ho]]]].
  rewrite He, Ho in Hin. destruct e as [[s t] off].
  apply In_combine_map in Hin as [[[a p] u] [Hin [Hst Hoff]]].
  apply List.filter_In in Hin as [Hrow Hkeep].
  apply rg_rows_In in Hrow as [Ha [_ [Hp _]]].
  cbn [fst snd] in Hst, Hoff. injection Hst as <- <-. subst off.
  assert (Hposs : get_positions atoms ++ index_by grid_pos c = get_positions awp).
  { unfold awp, Atoms_extend, get_positions. cbn [atoms_sites].
    now rewrite map_app, probe_sites_snd. }
  rewrite Hposs.
  exists (rg_distance_sqr (get_cell atoms) (a, p, u)). split.
  - apply rg_distance_sqr_record; unfold get_positions;
      rewrite nth_error_map; [rewrite Ha|rewrite Hp]; reflexivity.
  - unfold rg_keep, rg_mask in Hkeep. apply andb_true_iff in Hkeep as [Hle Hgt].
    split; assumption.
Qed.

(** X5.  With the radius-graph strategy and real atoms of non-zero species,
    every edge of a built record, in every mode, passes the radius graph's
    single-precision test when its squared length is recomputed, as the
    constructor computes it, from the record's own positions, cell and
    offset: above epsilon and at most the squared cutoff, as torch compares
    them.  In mode 'all' this holds after the per-block index shift. *)
Theorem built_record_edge_lengths {K : TorchFloat}
    (nbl : neighbor_list) (self : ProbeGraphAdder) (obj : HostRecord)
    (slice_start num_probes : option nat) (mode : option string)
    (stride : option nat) (rng : nat -> nat) (pd : ProbeGraphRecord) :
  build_probe_data nbl self obj slice_start num_probes mode stride rng = Ok pd ->
  Forall (fun z => z <> 0%Z) (host_atomic_numbers obj) ->
  self_implementation self = "RGPBC"%string ->
  exists edge_index cell_offsets pos,
    pd_edge_index pd = Some edge_index /\
    pd_cell_offsets pd = Some cell_offsets /\
    pd_pos pd = Some pos /\
    forall e, In e (combine edge_index cell_offsets) ->
      exists d,
        rg_edge_distance_sqr pos (host_cell obj) e = Some d /\
        torch_gt d epsilon = true /\
        torch_le d (self_cutoff self * self_cutoff self) = true.
Proof.
  intros Hbuild Hreal Himpl.
  destruct (build_probe_data_blocks _ _ _ _ _ _ _ _ _ Hbuild)
    as (atoms & density & blocks & rs & Hatoms & _ & _ & Hrs & ->).
  unfold record_of. cbn [pd_edge_index pd_cell_offsets pd_pos].
  set (grid_pos := calculate_grid_pos _ _) in *.
  eexists _, _, _. split; [reflexivity|]. split; [reflexivity|]. split; [reflexivity|].
  intros e Hin.
  destruct (shifted_edges_In _ _ _
              (fun c r Hr => engine_run_sizes _ _ _ _ _ _ _ Hr) Hrs 0 _ Hin)
    as (pre & c & post & r & s & t & off & -> & Hr & Hin0 & ->).
  destruct (Atoms_new_positions _ _ _ _ _ Hatoms) as [Hpos Hnum].
  assert (HA : length (atoms_sites atoms) = length (host_pos obj)).
  { rewrite <- Hpos. unfold get_positions. now rewrite length_map. }
  assert (Hcell : get_cell atoms = host_cell obj).
  { unfold Atoms_new in Hatoms. destruct (Nat.eqb _ _); [|discriminate].
    now injection Hatoms as <-. }
  rewrite <- Hnum in Hreal.
  destruct (get_edges_from_choice_range _ _ _ _ _ _ _ _ _ Hreal (or_introl Himpl) Hr
              (in_combine_l _ _ _ _ Hin0)) as [Hs Ht].
  rewrite HA in Hs, Ht.
  destruct (get_edges_from_choice_rg_distance _ _ _ _ _ _ _ _ Himpl Hr Hin0)
    as (d & Hd & Hlo & Hhi).
  exists d. split; [|split; assumption].
  rewrite Hpos, Hcell in Hd. rewrite <- Hd.
  unfold rg_edge_distance_sqr. cbn [Nat.add].
  rewrite concat_app. cbn [concat]. unfold index_by. rewrite !map_app.
  rewrite (nth_error_kept (host_pos obj) _
             (map (fun t0 : nat * nat * nat => let '(i, j, k) := t0 in nd_at grid_pos i j k) c))
    by exact Hs.
  rewrite <- (length_map (fun t0 : nat * nat * nat =>
                            let '(i, j, k) := t0 in nd_at grid_pos i j k) (concat pre)).
  rewrite nth_error_moved by (rewrite length_map; lia).
  reflexivity.
Qed.

Lemma built_record_edge_lengths_witness :
  pd_edge_index pd_all5 = Some [(0, 4); (0, 5); (0, 7); (0, 8)] /\
  exists edge_index cell_offsets pos,
    pd_edge_index pd_all5 = Some edge_index /\
    pd_cell_offsets pd_all5 = Some cell_offsets /\
    pd_pos pd_all5 = Some pos /\
    forall e, In e (combine edge_index cell_offsets) ->
      exists d,
        rg_edge_distance_sqr pos (host_cell host5) e = Some d /\
        torch_gt d epsilon = true /\
        torch_le d (self_cutoff (adder0 "RGPBC") * self_cutoff (adder0 "RGPBC")) = true.
Proof.
  split; [reflexivity|].
  apply (built_record_edge_lengths primitive_neighbor_list (adder0 "RGPBC") host5
           None (Some 4) (Some "all"%string) None (fun _ => 0) pd_all5).
  - vm_compute. reflexivity.
  - simpl. repeat constructor. discriminate.
  - reflexivity.
Defined.

(** ** Probes, targets and the grid *)



Lemma strided_index_in_range (n stride i : nat) :
  0 < stride -> i < (n + stride - 1) / stride -> i * stride < n.
Proof.
  intros Hs Hi.
  pose proof (Nat.div_mod_eq (n + stride - 1) stride) as Hdm.
  pose proof (Nat.mod_upper_bound (n + stride - 1) stride ltac:(lia)) as Hr.
  assert (H : (i + 1) * stride <= (n + stride - 1) / stride * stride)
    by (apply Nat.mul_le_mono_r; lia).
  lia.
Qed.

Lemma downsample_cases (stride : nat) (density : ndarray3 Q) :
  (In stride [1; 2; 4] ->
   exists density',
     downsample stride density = Ok density' /\
     nd_shape density' =
       (let '(nx, ny, nz) := nd_shape density in
        ((nx + stride - 1) / stride, (ny + stride - 1) / stride,
         (nz + stride - 1) / stride)) /\
     forall i j k, in_shape (nd_shape density') (i, j, k) ->
       in_shape (nd_shape density) (i * stride, j * stride, k * stride) /\
       nd_at density' i j k = nd_at density (i * stride) (j * stride) (k * stride)) /\
  (~ In stride [1; 2; 4] -> downsample stride density = Raise AssertionError).
Proof.
  split.
  - intros Hs.
    assert (Hpos : 0 < stride) by (destruct Hs as [<-|[<-|[<-|[]]]]; lia).
    assert (Hgen : forall a : ndarray3 Q,
              nd_shape (strided stride a) =
                (let '(nx, ny, nz) := nd_shape a in
                 ((nx + stride - 1) / stride, (ny + stride - 1) / stride,
                  (nz + stride - 1) / stride)) /\
              forall i j k, in_shape (nd_shape (strided stride a)) (i, j, k) ->
                in_shape (nd_shape a) (i * stride, j * stride, k * stride) /\
                nd_at (strided stride a) i j k
                = nd_at a (i * stride) (j * stride) (k * stride)).
    { intros a. unfold strided. destruct (nd_shape a) as [[nx ny] nz].
      cbn [nd_shape nd_at]. split; [reflexivity|].
      intros i j k (Hi & Hj & Hk). split; [|reflexivity].
      repeat split; now apply strided_index_in_range. }
    unfold downsample. destruct (Nat.eqb_spec stride 1) as [->|H1]; cbn [negb].
    + exists density. split; [reflexivity|]. split.
      * destruct (nd_shape density) as [[nx ny] nz].
        now rewrite !Nat.add_sub, !Nat.div_1_r.
      * intros i j k Hin. rewrite !Nat.mul_1_r. split; [exact Hin|reflexivity].
    + assert (H24 : (stride =? 2) || (stride =? 4) = true).
      { destruct Hs as [<-|[<-|[<-|[]]]]; try reflexivity. congruence. }
      rewrite H24. exists (strided stride density). split; [reflexivity|]. apply Hgen.
  - intros Hs. unfold downsample.
    destruct (Nat.eqb_spec stride 1) as [->|H1]; [exfalso; apply Hs; now left|].
    destruct (Nat.eqb_spec stride 2) as [->|H2];
      [exfalso; apply Hs; right; now left|].
    destruct (Nat.eqb_spec stride 4) as [->|H4];
      [exfalso; apply Hs; right; right; now left|].
    reflexivity.
Qed.

(** X7.  Downsampling succeeds exactly for the strides 1, 2 and 4 and fails
    with the assertion otherwise.  When it succeeds, each axis has
    ceil(n / stride) points, and every index inside the new shape reads the
    entry of the original grid at stride times that index, which lies inside
    the original shape. *)
Theorem downsample_reads_every_stride_th (stride : nat) (density : ndarray3 Q) :
  match downsample stride density with
  | Ok density' =>
      In stride [1; 2; 4] /\
      nd_shape density' =
        (let '(nx, ny, nz) := nd_shape density in
         ((nx + stride - 1) / stride, (ny + stride - 1) / stride,
          (nz + stride - 1) / stride)) /\
      forall i j k, in_shape (nd_shape density') (i, j, k) ->
        in_shape (nd_shape density) (i * stride, j * stride, k * stride) /\
        nd_at density' i j k = nd_at density (i * stride) (j * stride) (k * stride)
  | Raise e => e = AssertionError /\ ~ In stride [1; 2; 4]
  end.
Proof.
  destruct (downsample_cases stride density) as [Hok Herr].
  destruct (in_dec Nat.eq_dec stride [1; 2; 4]) as [Hin|Hout].
  - destruct (Hok Hin) as (d & -> & Hshape & Hat). auto.
  - rewrite (Herr Hout). auto.
Qed.

Lemma Qnat_pos (n : nat) : 0 < n -> (0 < Qnat n)%Q.
Proof. intros H. unfold Qnat. rewrite <- (Zlt_Qlt 0). lia. Qed.

Lemma Qdiv_cancel_r (a b c : Q) : ~ (c == 0)%Q -> (a / c == b / c)%Q -> (a == b)%Q.
Proof.
  intros Hc H.
  setoid_replace a with (a / c * c)%Q using relation Qeq by (field; exact Hc).
  rewrite H. field. exact Hc.
Qed.

Lemma Qnat_frac_inj (i i' n : nat) :
  0 < n -> (Qnat i / Qnat n == Qnat i' / Qnat n)%Q -> i = i'.
Proof.
  intros Hn H. pose proof (Qnat_pos n Hn) as Hq.
  assert (Hne : ~ (Qnat n == 0)%Q) by (intros E; rewrite E in Hq; lra).
  pose proof (Qdiv_cancel_r _ _ _ Hne H) as E.
  unfold Qnat in E. rewrite inject_Z_injective in E. lia.
Qed.

(** X9.  For a cell of non-zero volume, two index triples inside the grid
    shape that map to the same position are the same triple: no two grid
    points coincide. *)
Theorem grid_positions_distinct (shape : nat * nat * nat) (cell : mat3)
    (t t' : nat * nat * nat) :
  ~ (dot (fst (fst cell)) (cross (snd (fst cell)) (snd cell)) == 0)%Q ->
  in_shape shape t -> in_shape shape t' ->
  veq (let '(i, j, k) := t in nd_at (calculate_grid_pos shape cell) i j k)
      (let '(i, j, k) := t' in nd_at (calculate_grid_pos shape cell) i j k) ->
  t = t'.
Proof.
  destruct shape as [[nx ny] nz], t as [[i j] k], t' as [[i' j'] k'].
  destruct cell as [[[[c00 c01] c02] [[c10 c11] c12]] [[c20 c21] c22]].
  cbn [fst snd]. unfold calculate_grid_pos, in_shape. cbn [nd_at].
  intros Hvol (Hi & Hj & Hk) (Hi' & Hj' & Hk').
  set (f0 := (Qnat i / Qnat nx)%Q). set (f1 := (Qnat j / Qnat ny)%Q).
  set (f2 := (Qnat k / Qnat nz)%Q). set (g0 := (Qnat i' / Qnat nx)%Q).
  set (g1 := (Qnat j' / Qnat ny)%Q). set (g2 := (Qnat k' / Qnat nz)%Q).
  unfold vecmat, veq, dot, cross in *. intros (E0 & E1 & E2).
  set (vol := (c00 * (c11 * c22 - c12 * c21) + c01 * (c12 * c20 - c10 * c22)
               + c02 * (c10 * c21 - c11 * c20))%Q) in *.
  assert (D0 : ((f0 - g0) * vol == 0)%Q).
  { setoid_replace ((f0 - g0) * vol)%Q with
      (((f0 * c00 + f1 * c10 + f2 * c20) - (g0 * c00 + g1 * c10 + g2 * c20))
         * (c11 * c22 - c12 * c21)
       + ((f0 * c01 + f1 * c11 + f2 * c21) - (g0 * c01 + g1 * c11 + g2 * c21))
         * (c12 * c20 - c10 * c22)
       + ((f0 * c02 + f1 * c12 + f2 * c22) - (g0 * c02 + g1 * c12 + g2 * c22))
         * (c10 * c21 - c11 * c20))%Q using relation Qeq by (unfold vol; ring).
    rewrite E0, E1, E2. ring. }
  assert (D1 : ((f1 - g1) * vol == 0)%Q).
  { setoid_replace ((f1 - g1) * vol)%Q with
      (((f0 * c00 + f1 * c10 + f2 * c20) - (g0 * c00 + g1 * c10 + g2 * c20))
         * (c21 * c02 - c22 * c01)
       + ((f0 * c01 + f1 * c11 + f2 * c21) - (g0 * c01 + g1 * c11 + g2 * c21))
         * (c22 * c00 - c20 * c02)
       + ((f0 * c02 + f1 * c12 + f2 * c22) - (g0 * c02 + g1 * c12 + g2 * c22))
         * (c20 * c01 - c21 * c00))%Q using relation Qeq by (unfold vol; ring).
    rewrite E0, E1, E2. ring. }
  assert (D2 : ((f2 - g2) * vol == 0)%Q).
  { setoid_replace ((f2 - g2) * vol)%Q with
      (((f0 * c00 + f1 * c10 + f2 * c20) - (g0 * c00 + g1 * c10 + g2 * c20))
         * (c01 * c12 - c02 * c11)
       + ((f0 * c01 + f1 * c11 + f2 * c21) - (g0 * c01 + g1 * c11 + g2 * c21))
         * (c02 * c10 - c00 * c12)
       + ((f0 * c02 + f1 * c12 + f2 * c22) - (g0 * c02 + g1 * c12 + g2 * c22))
         * (c00 * c11 - c01 * c10))%Q using relation Qeq by (unfold vol; ring).
    rewrite E0, E1, E2. ring. }
  assert (Hz : forall x : Q, (x * vol == 0)%Q -> (x == 0)%Q).
  { intros x Hx. destruct (Qmult_integral _ _ Hx) as [H|H]; [exact H|].
    now destruct (Hvol H). }
  apply Hz in D0, D1, D2.
  assert (F0 : (f0 == g0)%Q) by lra. assert (F1 : (f1 == g1)%Q) by lra.
  assert (F2 : (f2 == g2)%Q) by lra.
  apply Qnat_frac_inj in F0; [|lia]. apply Qnat_frac_inj in F1; [|lia].
  apply Qnat_frac_inj in F2; [|lia]. congruence.
Qed.

Lemma grid_positions_distinct_witness : (0, 0, 3) = (0, 0, 3).
Proof.
  apply (grid_positions_distinct (1, 1, 10) (diag 10) (0, 0, 3) (0, 0, 3)).
  - vm_compute. discriminate.
  - simpl. lia.
  - simpl. lia.
  - vm_compute. repeat split; reflexivity.
Defined.

(** ** Failures of the sampler and of the strategy choice *)

Lemma unravel_index_overrun (shape : nat * nat * nat) (indices : list nat) :
  (exists g, In g indices /\ np_prod shape <= g) ->
  unravel_index indices shape = Raise ValueError.
Proof.
  unfold unravel_index. induction indices as [|g0 l IH]; intros [g [Hin Hg]].
  - destruct Hin.
  - cbn [mapM].
    destruct (Nat.lt_ge_cases g0 (np_prod shape)) as [Hlt|Hge].
    + rewrite (unravel_index1_ok _ _ Hlt). cbn [rbind].
      destruct Hin as [->|Hin]; [lia|]. rewrite IH by eauto. reflexivity.
    + rewrite (unravel_index1_out _ _ Hge). reflexivity.
Qed.

(** X10.  The sampler's failures, for a host record whose arrays and stride
    are in order.  A non-empty draw in mode 'random' on an empty grid, and a
    non-empty window in mode 'slice' that runs past the end of the grid, raise
    ValueError.  Mode 'all' with block size zero raises OverflowError on a
    non-empty grid and ValueError on an empty one; with a positive block size
    on an empty grid it raises IndexError.  No record is produced in any of
    them. *)
Theorem sampler_failures {K : TorchFloat}
    (nbl : neighbor_list) (self : ProbeGraphAdder) (obj : HostRecord)
    (slice_start num_probes : option nat) (mode : option string)
    (stride : option nat) (rng : nat -> nat)
    (atoms : Atoms) (density : ndarray3 Q) (e : exn) :
  Atoms_new (host_atomic_numbers obj) (host_pos obj) (host_cell obj) (true, true, true)
    = Ok atoms ->
  downsample (default (self_stride self) stride) (host_charge_density obj) = Ok density ->
  let S := default (self_slice_start self) slice_start in
  let N := default (self_num_probes self) num_probes in
  let total := np_prod (nd_shape density) in
  (default (self_mode self) mode = "random"%string /\ 0 < N /\ total = 0 /\
   e = ValueError) \/
  (default (self_mode self) mode = "slice"%string /\ 0 < N /\ total < S + N /\
   e = ValueError) \/
  (default (self_mode self) mode = "all"%string /\ N = 0 /\
   e = (if total =? 0 then ValueError else OverflowError)) \/
  (default (self_mode self) mode = "all"%string /\ 0 < N /\ total = 0 /\
   e = IndexError) ->
  build_probe_data nbl self obj slice_start num_probes mode stride rng = Raise e.
Proof.
  intros Hatoms Hdens S N total Hcase. unfold build_probe_data.
  rewrite Hatoms, Hdens. cbn [rbind].
  rewrite calculate_grid_pos_shape. fold total S N.
  destruct Hcase as [(-> & HN & Ht & ->)|[(-> & HN & Hover & ->)
                    |[(-> & HN & ->)|(-> & HN & Ht & ->)]]].
  - change (String.eqb "random" "random") with true.
    unfold np_random_randint. rewrite Ht.
    destruct (Nat.eqb_spec N 0) as [E|E]; [lia|]. reflexivity.
  - change (String.eqb "slice" "random") with false.
    change (String.eqb "slice" "slice") with true.
    cbn [rbind]. rewrite unravel_index_overrun; [reflexivity|].
    exists (S + N - 1). split; [|fold total; lia].
    unfold np_arange. apply in_seq. lia.
  - change (String.eqb "all" "random") with false.
    change (String.eqb "all" "slice") with false.
    change (String.eqb "all" "all") with true.
    cbn [rbind]. unfold ceil_div. rewrite HN. cbn [Nat.eqb].
    destruct (total =? 0); reflexivity.
  - change (String.eqb "all" "random") with false.
    change (String.eqb "all" "slice") with false.
    change (String.eqb "all" "all") with true.
    cbn [rbind]. unfold ceil_div. rewrite Ht.
    destruct (Nat.eqb_spec N 0) as [E|E]; [lia|].
    replace ((0 + N - 1) / N) with 0 by (symmetry; apply Nat.div_small; lia).
    reflexivity.
Qed.

Lemma sampler_failures_witness :
  build_probe_data primitive_neighbor_list (adder0 "RGPBC") host_empty
                   None None (Some "random"%string) None (fun _ => 0)
    = Raise ValueError /\
  build_probe_data primitive_neighbor_list (adder0 "RGPBC") host0
                   (Some 8) (Some 3) None None (fun _ => 0)
    = Raise ValueError /\
  build_probe_data primitive_neighbor_list (adder0 "RGPBC") host0
                   None (Some 0) (Some "all"%string) None (fun _ => 0)
    = Raise OverflowError /\
  build_probe_data primitive_neighbor_list (adder0 "RGPBC") host_empty
                   None (Some 0) (Some "all"%string) None (fun _ => 0)
    = Raise ValueError /\
  build_probe_data primitive_neighbor_list (adder0 "RGPBC") host_empty
                   None None (Some "all"%string) None (fun _ => 0)
    = Raise IndexError.
Proof.
  split; [|split; [|split; [|split]]].
  - apply (sampler_failures primitive_neighbor_list (adder0 "RGPBC") host_empty
             None None (Some "random"%string) None (fun _ => 0)
             atoms_h (host_charge_density host_empty) ValueError);
      [reflexivity | reflexivity |].
    left. repeat split. simpl. lia.
  - apply (sampler_failures primitive_neighbor_list (adder0 "RGPBC") host0
             (Some 8) (Some 3) None None (fun _ => 0)
             atoms_h (host_charge_density host0) ValueError);
      [reflexivity | reflexivity |].
    right. left. repeat split; simpl; lia.
  - apply (sampler_failures primitive_neighbor_list (adder0 "RGPBC") host0
             None (Some 0) (Some "all"%string) None (fun _ => 0)
             atoms_h (host_charge_density host0) OverflowError);
      [reflexivity | reflexivity |].
    right. right. left. repeat split.
  - apply (sampler_failures primitive_neighbor_list (adder0 "RGPBC") host_empty
             None (Some 0) (Some "all"%string) None (fun _ => 0)
             atoms_h (host_charge_density host_empty) ValueError);
      [reflexivity | reflexivity |].
    right. right. left. repeat split.
  - apply (sampler_failures primitive_neighbor_list (adder0 "RGPBC") host_empty
             None None (Some "all"%string) None (fun _ => 0)
             atoms_h (host_charge_density host_empty) IndexError);
      [reflexivity | reflexivity |].
    right. right. right. repeat split. simpl. lia.
Defined.

Lemma get_edges_from_choice_unsupported {K : TorchFloat} nbl self choice grid_pos atoms incl :
  self_implementation self <> "ASE"%string ->
  self_implementation self <> "RGPBC"%string ->
  get_edges_from_choice nbl self choice grid_pos atoms incl = Raise NotImplementedError.
Proof.
  intros Ha Hr. unfold get_edges_from_choice.
  apply String.eqb_neq in Ha, Hr. now rewrite Ha, Hr.
Qed.

(** X11.  With an implementation name other than ASE and RGPBC, a call whose
    sampling step succeeds (a non-empty grid in mode 'random', a window
    inside the grid in mode 'slice', a positive block size on a non-empty
    grid in mode 'all') raises NotImplementedError and builds nothing. *)
Theorem unsupported_implementation_raises {K : TorchFloat}
    (nbl : neighbor_list) (self : ProbeGraphAdder) (obj : HostRecord)
    (slice_start num_probes : option nat) (mode : option string)
    (stride : option nat) (rng : nat -> nat)
    (atoms : Atoms) (density : ndarray3 Q) :
  self_implementation self <> "ASE"%string ->
  self_implementation self <> "RGPBC"%string ->
  Atoms_new (host_atomic_numbers obj) (host_pos obj) (host_cell obj) (true, true, true)
    = Ok atoms ->
  downsample (default (self_stride self) stride) (host_charge_density obj) = Ok density ->
  (default (self_mode self) mode = "random"%string /\
   0 < np_prod (nd_shape density)) \/
  (default (self_mode self) mode = "slice"%string /\
   default (self_slice_start self) slice_start
   + default (self_num_probes self) num_probes <= np_prod (nd_shape density)) \/
  (default (self_mode self) mode = "all"%string /\
   0 < default (self_num_probes self) num_probes /\
   0 < np_prod (nd_shape density)) ->
  build_probe_data nbl self obj slice_start num_probes mode stride rng
    = Raise NotImplementedError.
Proof.
  intros Ha Hr Hatoms Hdens Hmode. unfold build_probe_data.
  rewrite Hatoms, Hdens. cbn [rbind]. rewrite calculate_grid_pos_shape.
  set (shape := nd_shape density) in *. set (total := np_prod shape) in *.
  set (grid_pos := calculate_grid_pos shape (host_cell obj)).
  destruct Hmode as [[-> Ht]|[[-> Hfit]|[-> [Hn Ht]]]].
  - change (String.eqb "random" "random") with true.
    unfold np_random_randint.
    destruct (default (self_num_probes self) num_probes =? 0).
    { cbn [rbind unravel_index mapM]. now rewrite get_edges_from_choice_unsupported. }
    destruct (Nat.eqb_spec total 0) as [E|E]; [lia|].
    cbn [rbind]. rewrite (unravel_index_ok shape).
    2:{ intros g Hg. apply in_map_iff in Hg as [t [<- _]].
        now apply Nat.mod_upper_bound. }
    cbn [rbind]. now rewrite get_edges_from_choice_unsupported.
  - change (String.eqb "slice" "random") with false.
    change (String.eqb "slice" "slice") with true. cbn [rbind].
    rewrite (unravel_index_ok shape).
    2:{ intros g Hg. unfold np_arange in Hg. apply in_seq in Hg. fold total. lia. }
    cbn [rbind]. now rewrite get_edges_from_choice_unsupported.
  - change (String.eqb "all" "random") with false.
    change (String.eqb "all" "slice") with false.
    change (String.eqb "all" "all") with true. cbn [rbind].
    destruct (ceil_div_spec total _ Hn) as [-> [Hup _]]. cbn [rbind].
    set (n := default (self_num_probes self) num_probes) in *.
    assert (Hnb : 0 < (total + n - 1) / n) by nia.
    destruct (block_choice_all_block total n 0 Hn Hnb) as [H1 [_ H3]].
    set (nb := (total + n - 1) / n) in *.
    rewrite for_loop_block_body. clearbody nb.
    destruct nb as [|nb']; [lia|]. cbn [seq mapM].
    unfold block_edges at 1.
    rewrite H1, (calculate_grid_pos_shape shape (host_cell obj) : nd_shape grid_pos = shape).
    rewrite (unravel_index_ok shape) by exact H3. cbn [rbind].
    now rewrite get_edges_from_choice_unsupported.
Qed.

Lemma unsupported_implementation_raises_witness :
  build_probe_data primitive_neighbor_list (adder0 "KDTree") host0
                   None None None None (fun _ => 0)
  = Raise NotImplementedError.
Proof.
  apply (unsupported_implementation_raises primitive_neighbor_list (adder0 "KDTree") host0
           None None None None (fun _ => 0) atoms_h (host_charge_density host0)).
  - discriminate.
  - discriminate.
  - reflexivity.
  - reflexivity.
  - right. left. split; [reflexivity|]. simpl. lia.
Defined.

(** ** The cell-list wrapper, entry by entry *)

Lemma np_take_select_filter (numbers : list Z) (entries : list (nat * ivec3)) :
  (forall e, In e entries -> fst e < length numbers) ->
  exists species,
    np_take numbers (map fst entries) = Ok species /\
    select (map (Z.eqb 0) species) entries
    = List.filter (fun e => Z.eqb 0 (nth (fst e) numbers 1%Z)) entries.
Proof.
  induction entries as [|e entries IH]; intros Hv.
  - exists []. split; reflexivity.
  - destruct IH as [species [Ht Hs]]; [intros e' He'; apply Hv; now right|].
    cbn [map np_take].
    destruct (nth_error numbers (fst e)) as [z|] eqn:Hz.
    + exists (z :: species). rewrite Ht. cbn [rbind]. split; [reflexivity|].
      cbn [map select List.filter].
      rewrite (nth_error_nth _ _ 1%Z Hz), Hs. reflexivity.
    + apply nth_error_None in Hz. specialize (Hv e (or_introl eq_refl)). lia.
Qed.

Lemma ase_collect_exact (self : AseNeighborListWrapper) (incl : bool) (i : nat)
    (results : list (list (nat * ivec3))) :
  (incl = false -> forall entries e, In entries results -> In e entries ->
     fst e < length (ase_atomic_numbers self)) ->
  ase_collect self incl i results =
    Ok (map (fun ke => map (fun e => (fst ke, fst e)) (ase_kept self incl (snd ke)))
            (combine (seq i (length results)) results),
        map (fun entries => map snd (ase_kept self incl entries)) results).
Proof.
  revert i. induction results as [|entries results IH]; intros i Hv; [reflexivity|].
  cbn [ase_collect length seq combine map fst snd].
  rewrite IH by (intros Hi es e Hes He; apply (Hv Hi es e); [now right|exact He]).
  destruct incl; cbn [negb rbind ase_kept].
  - reflexivity.
  - destruct (np_take_select_filter (ase_atomic_numbers self) entries) as [sp [Ht Hs]].
    { intros e He. apply (Hv eq_refl entries e); [now left|exact He]. }
    rewrite Ht. cbn [rbind]. rewrite Hs. reflexivity.
Qed.

Lemma combine_concat_maps {A B C : Type} (f : A -> list B) (g : A -> list C) (l : list A) :
  (forall x, In x l -> length (f x) = length (g x)) ->
  combine (concat (map f l)) (concat (map g l))
  = flat_map (fun x => combine (f x) (g x)) l.
Proof.
  induction l as [|x l IH]; intros H; [reflexivity|].
  cbn [map concat flat_map].
  rewrite combine_app_aligned by (apply H; now left).
  rewrite IH by (intros; apply H; now right). reflexivity.
Qed.

Lemma length_concat_maps {A B C : Type} (f : A -> list B) (g : A -> list C) (l : list A) :
  (forall x, In x l -> length (f x) = length (g x)) ->
  length (concat (map f l)) = length (concat (map g l)).
Proof.
  induction l as [|x l IH]; intros H; [reflexivity|].
  cbn [map concat]. rewrite !length_app, (H x) by (now left).
  rewrite IH by (intros; apply H; now right). reflexivity.
Qed.

(** X13.  The cell-list strategy, entry by entry.  Without a real atom it
    raises ValueError.  Otherwise, provided the library's partner indices are
    sites of the structure, it succeeds, and its edges with their offsets
    are, atom by atom and in the library's order, the library's entries
    (partner, offset) of that atom - all of them with atomic edges included,
    those with a probe partner otherwise - with the offset as stored. *)
Theorem ase_get_all_neighbors_exact
    (self : AseNeighborListWrapper) (cutoff : Q) (include_atomic_edges : bool) :
  (forall i j S, i < ase_num_atoms self -> In (j, S) (ase_neighborlist self i) ->
     j < length (ase_atomic_numbers self)) ->
  if ase_num_atoms self =? 0
  then AseNeighborListWrapper_get_all_neighbors self cutoff include_atomic_edges
       = Raise ValueError
  else exists edge_index cell_offsets,
      AseNeighborListWrapper_get_all_neighbors self cutoff include_atomic_edges
        = Ok (edge_index, cell_offsets) /\
      length edge_index = length cell_offsets /\
      combine edge_index cell_offsets =
        flat_map (fun i => map (fun e => (i, fst e, snd e))
                               (ase_kept self include_atomic_edges
                                         (ase_neighborlist self i)))
                 (seq 0 (ase_num_atoms self)).
Proof.
  intros Hv. unfold AseNeighborListWrapper_get_all_neighbors.
  rewrite ase_collect_exact.
  2:{ intros _ entries e Hes He. apply in_map_iff in Hes as [i [<- Hi]].
      apply in_seq in Hi. destruct e as [j S]. apply (Hv i j S); [lia|exact He]. }
  cbn [rbind]. rewrite length_map, length_seq.
  destruct (ase_num_atoms self) as [|n] eqn:Hn; [reflexivity|].
  cbn [Nat.eqb]. rewrite <- Hn.
  set (R := map (ase_neighborlist self) (seq 0 (ase_num_atoms self))).
  assert (Hcomb : combine (seq 0 (ase_num_atoms self)) R
                  = map (fun i => (i, ase_neighborlist self i))
                        (seq 0 (ase_num_atoms self))).
  { unfold R. rewrite <- (map_id (seq 0 (ase_num_atoms self))) at 1.
    now rewrite combine_map_same. }
  rewrite Hcomb, map_map. unfold R. rewrite map_map. cbn [fst snd].
  match goal with
  | |- context [match ?l with [] => _ | _ :: _ => _ end] =>
      destruct l as [|x xs] eqn:Hmap
  end.
  { rewrite Hn in Hmap. discriminate. }
  rewrite <- Hmap. eexists _, _. split; [reflexivity|].
  assert (Hcc := combine_concat_maps
            (fun i => map (fun e : nat * ivec3 => (i, fst e))
                          (ase_kept self include_atomic_edges (ase_neighborlist self i)))
            (fun i => map snd (ase_kept self include_atomic_edges (ase_neighborlist self i)))
            (seq 0 (ase_num_atoms self))
            ltac:(intros; cbv beta; now rewrite !length_map)).
  split.
  - apply length_concat_maps. intros. cbv beta. now rewrite !length_map.
  - rewrite Hcc. apply flat_map_ext. intros i. now rewrite combine_map_same.
Qed.

Lemma ase_get_all_neighbors_exact_witness :
  exists edge_index cell_offsets,
    AseNeighborListWrapper_get_all_neighbors
      (AseNeighborListWrapper_init primitive_neighbor_list 2 atoms_z) 2 false
      = Ok (edge_index, cell_offsets) /\
    length edge_index = length cell_offsets /\
    combine edge_index cell_offsets =
      flat_map (fun i => map (fun e => (i, fst e, snd e))
                             (ase_kept (AseNeighborListWrapper_init
                                          primitive_neighbor_list 2 atoms_z) false
                                       (ase_neighborlist
                                          (AseNeighborListWrapper_init
                                             primitive_neighbor_list 2 atoms_z) i)))
               (seq 0 (ase_num_atoms (AseNeighborListWrapper_init
                                        primitive_neighbor_list 2 atoms_z))).
Proof.
  apply (ase_get_all_neighbors_exact
           (AseNeighborListWrapper_init primitive_neighbor_list 2 atoms_z) 2 false).
  intros i j S Hi Hin. simpl in Hi.
  assert (i = 0) by lia. subst i. vm_compute in Hin.
  destruct Hin as [E|[]]. injection E as <- _. simpl. lia.
Defined.

(** ** The radius graph never repeats an edge *)

Lemma NoDup_flat_map {A B : Type} (f : A -> list B) (l : list A) :
  List.NoDup l ->
  (forall x, In x l -> List.NoDup (f x)) ->
  (forall x y b, In x l -> In y l -> In b (f x) -> In b (f y) -> x = y) ->
  List.NoDup (flat_map f l).
Proof.
  intros Hl Hf Hdis. induction Hl as [|x l Hx Hl IH]; cbn [flat_map]; [constructor|].
  apply List.NoDup_app.
  - apply Hf. now left.
  - apply IH.
    + intros y Hy. apply Hf. now right.
    + intros y z b Hy Hz. apply Hdis; now right.
  - intros b Hb Hb'. apply in_flat_map in Hb' as [y [Hy Hby]].
    assert (x = y) by (apply (Hdis x y b); auto; [now left|now right]).
    subst y. contradiction.
Qed.

Lemma NoDup_map_injective {A B : Type} (f : A -> B) (l : list A) :
  (forall x y, f x = f y -> x = y) -> List.NoDup l -> List.NoDup (map f l).
Proof.
  intros Hinj Hl. apply NoDup_map_NoDup_ForallPairs; [|exact Hl].
  intros x y _ _. apply Hinj.
Qed.

Lemma int_range_NoDup (lo hi : Z) : List.NoDup (int_range lo hi).
Proof.
  unfold int_range. apply NoDup_map_injective; [|apply seq_NoDup].
  intros x y H. lia.
Qed.

Lemma cartesian_prod_NoDup (a b c : list Z) :
  List.NoDup a -> List.NoDup b -> List.NoDup c -> List.NoDup (cartesian_prod a b c).
Proof.
  intros Ha Hb Hc. unfold cartesian_prod.
  apply NoDup_flat_map; [exact Ha| |].
  - intros x _. apply NoDup_flat_map; [exact Hb| |].
    + intros y _. apply NoDup_map_injective; [|exact Hc]. intros z z' [= ->]. reflexivity.
    + intros y y' t _ _ H1 H2.
      apply in_map_iff in H1 as [z [<- _]]. apply in_map_iff in H2 as [z' [[= -> _] _]].
      reflexivity.
  - intros x x' t _ _ H1 H2.
    apply in_flat_map in H1 as [y [_ H1]]. apply in_map_iff in H1 as [z [<- _]].
    apply in_flat_map in H2 as [y' [_ H2]]. apply in_map_iff in H2 as [z' [[= -> _ _] _]].
    reflexivity.
Qed.

Lemma list_prod_NoDup {A B : Type} (l : list A) (m : list B) :
  List.NoDup l -> List.NoDup m -> List.NoDup (list_prod l m).
Proof.
  intros Hl Hm. induction Hl as [|x l Hx Hl IH]; cbn [list_prod]; [constructor|].
  apply List.NoDup_app.
  - apply NoDup_map_injective; [|exact Hm]. intros y y' [= ->]. reflexivity.
  - exact IH.
  - intros [x' y] H1 H2. apply in_map_iff in H1 as [y' [[= <- <-] _]].
    apply in_prod_iff in H2 as [H2 _]. contradiction.
Qed.

Lemma enum_NoDup {A : Type} (l : list A) (n : nat) :
  List.NoDup (combine (seq n (length l)) l).
Proof.
  apply (NoDup_map_inv fst). rewrite enum_fst. apply seq_NoDup.
Qed.

(** X14.  The radius graph never returns the same (source, target, offset)
    triple twice: each atom, probe and translation gives at most one edge. *)
Theorem radius_graph_no_duplicate_edges {K : TorchFloat}
    (radius : Q) (atoms : Atoms) (pbc : bool * bool * bool)
    (w : RadiusGraphPBCWrapper) :
  RadiusGraphPBCWrapper_init radius atoms pbc = Ok w ->
  List.NoDup (combine (rg_edge_index w) (rg_offsets w)).
Proof.
  intros Hinit.
  destruct (RadiusGraphPBCWrapper_init_rows _ _ _ _ Hinit) as (reps & _ & _ & He & Ho).
  rewrite He, Ho, combine_map_same.
  apply NoDup_map_NoDup_ForallPairs.
  - intros [[[s a] [t p]] u] [[[s' a'] [t' p']] u'] Hx Hy. cbn [fst snd].
    intros [= <- <- Hu].
    apply List.filter_In in Hx as [Hx _]. apply List.filter_In in Hy as [Hy _].
    apply rg_rows_In in Hx as (Ha & _ & Hp & _). apply rg_rows_In in Hy as (Ha' & _ & Hp' & _).
    cbn [fst snd] in *.
    assert (a = a') by congruence. assert (p = p') by congruence.
    assert (u = u') by (rewrite <- (ineg_involutive u), Hu; apply ineg_involutive).
    congruence.
  - apply List.NoDup_filter. unfold rg_rows, rg_unit_cell.
    apply list_prod_NoDup; [apply list_prod_NoDup|].
    + apply List.NoDup_filter, enum_NoDup.
    + apply List.NoDup_filter, enum_NoDup.
    + apply cartesian_prod_NoDup; apply int_range_NoDup.
Qed.

Lemma radius_graph_no_duplicate_edges_witness :
  List.NoDup (combine (rg_edge_index rg1) (rg_offsets rg1)).
Proof.
  apply (radius_graph_no_duplicate_edges 2 atoms1 rg_default_pbc rg1).
  vm_compute. reflexivity.
Defined.

(** ** The dataset builder *)

Lemma pretty_N_go_ne_letter (x : N) (s s' : string) :
  s <> "l" +:+ s' -> pretty_N_go x s <> "l" +:+ s'.
Proof.
  revert s. induction (N.lt_wf_0 x) as [x _ IH]; intros s Hs.
  assert (x = 0 \/ 0 < x)%N as [->|Hx] by lia.
  - rewrite pretty_N_go_0. exact Hs.
  - rewrite pretty_N_go_step by exact Hx. apply IH.
    + apply N.div_lt; [exact Hx | reflexivity].
    + unfold pretty_N_char. repeat case_match; discriminate.
Qed.

Lemma pretty_nat_ne_length (n : nat) : pretty n <> "length"%string.
Proof.
  unfold pretty, pretty_nat, pretty, pretty_N.
  destruct (decide (N.of_nat n = 0%N)); [discriminate|].
  apply (pretty_N_go_ne_letter _ _ "ength"). discriminate.
Qed.

Section BuilderFacts.
Context {K : TorchFloat}.
Variable nbl : neighbor_list.
Variable rng : nat -> nat.
Variables A E : Type.
Variable VaspChargeDensity : string -> string -> E + (A * ndarray3 Q).
Variable a2g_convert :
  Q -> A -> E + (list Z * list vec3 * mat3 * gmap string (list Q)).
Variable builtin_object : loc.

Local Abbreviation loop :=
  (build_loop nbl rng A E VaspChargeDensity a2g_convert builtin_object).
Local Abbreviation build :=
  (build_charge_lmdb nbl rng A E VaspChargeDensity a2g_convert builtin_object).

(** The loop writes under the keys of the directories it gets through, and
    leaves [fid] at the last of them. *)
Lemma build_loop_frame inpath adder stride cutoff paths :
  forall fid last h db db' out,
    loop inpath adder stride cutoff fid paths last h db = (db', out) ->
    (exists k, k <= length paths /\
       (forall key, (forall i, fid <= i < fid + k -> key <> pretty i) ->
                    db' !! key = db !! key) /\
       (k = 0 -> db' = db)) /\
    (forall last', out = inr last' ->
       last' = match paths with [] => last | _ :: _ => Some (fid + length paths - 1) end).
Proof.
  induction paths as [|directory paths IH]; intros fid last h db db' out Hrun.
  - cbn in Hrun. injection Hrun as <- <-. split.
    + exists 0. split; [lia|]. split; reflexivity.
    + intros last' [= <-]. reflexivity.
  - cbn [build_loop] in Hrun.
    assert (Hstop : forall e : build_exn E, (db, @inl _ (option nat) e) = (db', out) ->
      (exists k, k <= length (directory :: paths) /\
         (forall key, (forall i, fid <= i < fid + k -> key <> pretty i) ->
                      db' !! key = db !! key) /\
         (k = 0 -> db' = db)) /\
      (forall last', out = inr last' ->
         last' = Some (fid + length (directory :: paths) - 1))).
    { intros e [= <- <-]. split.
      - exists 0. split; [cbn; lia|]. split; reflexivity.
      - intros last' [=]. }
    destruct (VaspChargeDensity inpath directory) as [e|[atoms dens]];
      [exact (Hstop _ Hrun)|].
    destruct (if negb (stride =? 1)%Z then slice_step stride dens else Ok dens)
      as [dens'|e]; [|exact (Hstop _ Hrun)].
    destruct (a2g_convert cutoff atoms) as [e|[[[atomic_numbers pos] cell] attrs]];
      [exact (Hstop _ Hrun)|].
    destruct (match adder with
              | Some adder0 => call_on_object nbl rng builtin_object adder0 h
              | None => Ok (mkHost atomic_numbers pos cell dens' attrs None, h)
              end) as [[data_object h']|e]; [|exact (Hstop _ Hrun)].
    apply IH in Hrun as [(k & Hk & Hframe & _) Hlast]. split.
    + exists (S k). split; [cbn; lia|]. split; [|discriminate].
      intros key Hkey. rewrite Hframe.
      * apply lookup_insert_ne. intros Heq. apply (Hkey fid); [lia|]. symmetry. exact Heq.
      * intros i Hi. apply Hkey. lia.
    + intros last' Hout. rewrite (Hlast last' Hout).
      destruct paths; cbn [length]; f_equal; lia.
Qed.

(** Without an assembler, with readers that succeed and a non-zero stride,
    the loop stores the record of every directory under its index. *)
Lemma build_loop_stores inpath stride cutoff paths :
  stride <> 0%Z ->
  Forall (fun directory =>
            exists atoms dens,
              VaspChargeDensity inpath directory = inr (atoms, dens) /\
              exists r, a2g_convert cutoff atoms = inr r) paths ->
  forall fid last h db,
  exists db',
    loop inpath None stride cutoff fid paths last h db
      = (db', inr match paths with
                  | [] => last
                  | _ :: _ => Some (fid + length paths - 1)
                  end) /\
    forall i directory atoms dens atomic_numbers pos cell attrs,
      nth_error paths i = Some directory ->
      VaspChargeDensity inpath directory = inr (atoms, dens) ->
      a2g_convert cutoff atoms = inr (atomic_numbers, pos, cell, attrs) ->
      exists dens',
        (if negb (stride =? 1)%Z then slice_step stride dens else Ok dens) = Ok dens' /\
        db' !! pretty (fid + i)
          = Some (PickledData (mkHost atomic_numbers pos cell dens' attrs None)).
Proof.
  intros Hstride Hall. induction Hall as [|directory paths Hd Hall IH];
    intros fid last h db.
  - exists db. split; [reflexivity|]. intros [|i]; discriminate.
  - destruct Hd as (atoms & dens & Hread & [[[[z p] c] a] Hconv]).
    assert (Hslice : exists dens',
      (if negb (stride =? 1)%Z then slice_step stride dens else Ok dens) = Ok dens').
    { destruct (negb (stride =? 1)%Z); [|eexists; reflexivity].
      unfold slice_step. destruct (Z.eqb_spec stride 0); [contradiction|].
      destruct (0 <? stride)%Z; eexists; reflexivity. }
    destruct Hslice as [dens' Hslice].
    destruct (IH (S fid) (Some fid) h
                 (<[pretty fid := PickledData (mkHost z p c dens' a None)]> db))
      as (db' & Hrun & Hrec).
    exists db'. split.
    + cbn [build_loop]. rewrite Hread, Hslice, Hconv. rewrite Hrun.
      f_equal. f_equal. destruct paths; cbn [length]; f_equal; lia.
    + intros [|i] d' atoms' dens0 z' p' c' a' Hnth Hread' Hconv'.
      * injection Hnth as <-. rewrite Hread in Hread'. injection Hread' as <- <-.
        rewrite Hconv in Hconv'. injection Hconv' as <- <- <- <-.
        exists dens'. split; [exact Hslice|].
        apply build_loop_frame in Hrun as [(k & _ & Hframe & _) _].
        rewrite Nat.add_0_r, Hframe; [apply lookup_insert_eq|].
        intros j Hj Heq. apply (inj pretty) in Heq. lia.
      * cbn [nth_error] in Hnth.
        destruct (Hrec i d' atoms' dens0 z' p' c' a' Hnth Hread' Hconv')
          as (dens1 & Hs1 & Hl1).
        exists dens1. split; [exact Hs1|].
        replace (fid + S i) with (S fid + i) by lia. exact Hl1.
Qed.

(** A call of the assembler on a reference that holds no host record
    raises. *)
Lemma call_on_object_raises adder h :
  h !! builtin_object = None ->
  call_on_object nbl rng builtin_object adder h = Raise ReferenceError.
Proof.
  intros Hobj. unfold call_on_object, ProbeGraphAdder_call. rewrite Hobj. reflexivity.
Qed.

(** X15.  Without an assembler, for a non-empty listing whose directories
    are all read and converted successfully and a non-zero stride, the
    builder returns; the environment then holds the number of directories
    under 'length', under the decimal index of each directory the record
    converted from its atoms, carrying the density sliced by the stride
    (untouched for stride 1) and no probe graph, and under every other key
    what it held before. *)
Theorem build_charge_lmdb_writes_every_directory
    (inpath : string) (paths : list string) (stride : Z) (cutoff : Q)
    (h : gmap loc HostRecord) (db : lmdb_env) :
  paths <> [] ->
  stride <> 0%Z ->
  Forall (fun directory =>
            exists atoms dens,
              VaspChargeDensity inpath directory = inr (atoms, dens) /\
              exists r, a2g_convert cutoff atoms = inr r) paths ->
  exists db',
    build inpath paths None stride cutoff h db = (db', inr tt) /\
    db' !! "length"%string = Some (PickledInt (length paths)) /\
    (forall fid directory atoms dens atomic_numbers pos cell attrs,
       nth_error paths fid = Some directory ->
       VaspChargeDensity inpath directory = inr (atoms, dens) ->
       a2g_convert cutoff atoms = inr (atomic_numbers, pos, cell, attrs) ->
       exists dens',
         (if negb (stride =? 1)%Z then slice_step stride dens else Ok dens) = Ok dens' /\
         db' !! pretty fid
           = Some (PickledData (mkHost atomic_numbers pos cell dens' attrs None))) /\
    (forall key, key <> "length"%string ->
       (forall fid, fid < length paths -> key <> pretty fid) ->
       db' !! key = db !! key).
Proof.
  intros Hne Hstride Hall.
  destruct (build_loop_stores inpath stride cutoff paths Hstride Hall 0 None h db)
    as (db1 & Hrun & Hrec).
  destruct paths as [|d paths]; [contradiction|].
  exists (<["length"%string := PickledInt (0 + length (d :: paths) - 1 + 1)]> db1).
  split; [|split; [|split]].
  - unfold build_charge_lmdb. rewrite Hrun. reflexivity.
  - rewrite lookup_insert_eq. cbn [length]. do 2 f_equal. lia.
  - intros fid directory atoms dens z p c a Hnth Hread Hconv.
    destruct (Hrec fid directory atoms dens z p c a Hnth Hread Hconv)
      as (dens' & Hs & Hl).
    exists dens'. split; [exact Hs|].
    rewrite lookup_insert_ne; [exact Hl|].
    intros Heq. exact (pretty_nat_ne_length fid (eq_sym Heq)).
  - intros key Hkey Hfresh.
    rewrite lookup_insert_ne by (intros Heq; apply Hkey; symmetry; exact Heq).
    apply build_loop_frame in Hrun as [(k & Hk & Hframe & _) _].
    apply Hframe. intros i Hi. apply Hfresh. lia.
Qed.

(** X16.  'length' marks a completed build.  Whatever the arguments, a run
    writes only under the decimal indices of a prefix of the listing and,
    if it returns, under 'length'.  It returns only for a non-empty listing
    and then stores the number of directories under 'length'; a run that
    raises leaves 'length' as it was, and the run on an empty listing
    raises UnboundLocalError with the environment untouched. *)
Theorem build_charge_lmdb_length_marks_completion
    (inpath : string) (paths : list string)
    (probe_graph_adder : option ProbeGraphAdder) (stride : Z) (cutoff : Q)
    (h : gmap loc HostRecord) (db : lmdb_env) :
  let '(db', out) := build inpath paths probe_graph_adder stride cutoff h db in
  (exists k, k <= length paths /\
     forall key, key <> "length"%string ->
       (forall fid, fid < k -> key <> pretty fid) ->
       db' !! key = db !! key) /\
  match out with
  | inr _ => paths <> [] /\ db' !! "length"%string = Some (PickledInt (length paths))
  | inl e => db' !! "length"%string = db !! "length"%string /\
             (paths = [] -> e = Internal UnboundLocalError /\ db' = db)
  end.
Proof.
  unfold build_charge_lmdb.
  destruct (loop inpath probe_graph_adder stride cutoff 0 paths None h db)
    as [db1 out1] eqn:Hrun.
  pose proof (build_loop_frame _ _ _ _ _ _ _ _ _ _ _ Hrun) as [(k & Hk & Hframe & Hk0) Hlast].
  assert (Hlen : db1 !! "length"%string = db !! "length"%string).
  { apply Hframe. intros i _ Heq. exact (pretty_nat_ne_length i (eq_sym Heq)). }
  assert (Hkeys : forall key, (forall fid, fid < k -> key <> pretty fid) ->
                              db1 !! key = db !! key).
  { intros key Hfresh. apply Hframe. intros i Hi. apply Hfresh. lia. }
  destruct out1 as [e|[fid|]]; cbv beta iota.
  - split; [exists k; split; [exact Hk|]; intros key _; apply Hkeys|].
    split; [exact Hlen|].
    intros ->. cbn in Hrun. discriminate.
  - specialize (Hlast _ eq_refl). destruct paths as [|d paths]; [discriminate|].
    injection Hlast as ->. split.
    + exists k. split; [exact Hk|]. intros key Hkey Hfresh.
      rewrite lookup_insert_ne by (intros Heq; apply Hkey; symmetry; exact Heq).
      apply Hkeys, Hfresh.
    + split; [discriminate|]. rewrite lookup_insert_eq. cbn [length]. do 2 f_equal. lia.
  - specialize (Hlast _ eq_refl). destruct paths as [|d paths]; [|discriminate].
    split; [exists k; split; [exact Hk|]; intros key _; apply Hkeys|].
    split; [exact Hlen|].
    intros _. split; [reflexivity|]. cbn in Hrun. injection Hrun as <-. reflexivity.
Qed.

(** X17.  Given an assembler, the builder never returns and never writes:
    the call it makes passes the builtin [object], which holds no host
    record, in place of the data object.  The run raises with the
    environment untouched, and when the first directory is read, sliced and
    converted successfully the exception is the one of that call. *)
Theorem build_charge_lmdb_with_adder_raises
    (inpath : string) (paths : list string) (adder : ProbeGraphAdder)
    (stride : Z) (cutoff : Q) (h : gmap loc HostRecord) (db : lmdb_env) :
  h !! builtin_object = None ->
  exists e,
    build inpath paths (Some adder) stride cutoff h db = (db, inl e) /\
    (forall directory paths' atoms dens r,
       paths = directory :: paths' ->
       VaspChargeDensity inpath directory = inr (atoms, dens) ->
       stride <> 0%Z ->
       a2g_convert cutoff atoms = inr r ->
       e = Internal ReferenceError).
Proof.
  intros Hobj. unfold build_charge_lmdb.
  destruct paths as [|directory paths].
  - exists (Internal UnboundLocalError). split; [reflexivity|]. discriminate.
  - cbn [build_loop].
    destruct (VaspChargeDensity inpath directory) as [e|[atoms dens]] eqn:Hread.
    { exists (External e). split; [reflexivity|].
      intros d' p' atoms' dens' r [= <- <-] Hread'. rewrite Hread in Hread'. discriminate. }
    destruct (if negb (stride =? 1)%Z then slice_step stride dens else Ok dens)
      as [dens'|e] eqn:Hslice.
    2:{ exists (Internal e). split; [reflexivity|].
        intros d' p' atoms' dens0 r [= <- <-] _ Hstride _. exfalso.
        destruct (negb (stride =? 1)%Z); [|discriminate].
        unfold slice_step in Hslice. destruct (Z.eqb_spec stride 0); [contradiction|].
        destruct (0 <? stride)%Z; discriminate. }
    destruct (a2g_convert cutoff atoms) as [e|[[[z p] c] a]] eqn:Hconv.
    { exists (External e). split; [reflexivity|].
      intros d' p' atoms' dens0 r [= <- <-] Hread' _ Hconv'.
      rewrite Hread in Hread'. injection Hread' as <- <-.
      rewrite Hconv in Hconv'. discriminate. }
    rewrite (call_on_object_raises adder h Hobj).
    exists (Internal ReferenceError). split; [reflexivity|]. reflexivity.
Qed.
End BuilderFacts.

Lemma build_charge_lmdb_writes_every_directory_witness :
  exists db',
    build_charge_lmdb primitive_neighbor_list (fun _ => 0) unit Empty_set
                      reader0 convert0 1%positive
                      "in" ["a"; "b"]%string None 2 6 ∅ ∅ = (db', inr tt) /\
    db' !! "length"%string = Some (PickledInt (length ["a"; "b"]%string)) /\
    (forall fid directory atoms dens atomic_numbers pos cell attrs,
       nth_error ["a"; "b"]%string fid = Some directory ->
       reader0 "in" directory = inr (atoms, dens) ->
       convert0 6 atoms = inr (atomic_numbers, pos, cell, attrs) ->
       exists dens',
         (if negb (2 =? 1)%Z then slice_step 2 dens else Ok dens) = Ok dens' /\
         db' !! pretty fid
           = Some (PickledData (mkHost atomic_numbers pos cell dens' attrs None))) /\
    (forall key, key <> "length"%string ->
       (forall fid, fid < length ["a"; "b"]%string -> key <> pretty fid) ->
       db' !! key = (∅ : gmap string pickled) !! key).
Proof.
  destruct (build_charge_lmdb_writes_every_directory
              primitive_neighbor_list (fun _ => 0) unit Empty_set reader0 convert0
              1%positive "in" ["a"; "b"]%string 2 6 ∅ ∅)
    as (db' & Hrun & Hlen & Hrec & Hframe).
  - discriminate.
  - discriminate.
  - repeat constructor;
      (exists tt, (host_charge_density host0); split;
       [reflexivity | eexists; reflexivity]).
  - exists db'. split; [exact Hrun|]. split; [exact Hlen|]. split; [exact Hrec|exact Hframe].
Defined.

Lemma build_charge_lmdb_with_adder_raises_witness :
  exists e,
    build_charge_lmdb primitive_neighbor_list (fun _ => 0) unit Empty_set
                      reader0 convert0 1%positive
                      "in" ["a"; "b"]%string (Some (adder0 "RGPBC")) 1 6 ∅ ∅
      = (∅, inl e) /\
    (forall directory paths' atoms dens r,
       ["a"; "b"]%string = directory :: paths' ->
       reader0 "in" directory = inr (atoms, dens) ->
       1%Z <> 0%Z ->
       convert0 6 atoms = inr r ->
       e = Internal ReferenceError).
Proof.
  apply (build_charge_lmdb_with_adder_raises
           primitive_neighbor_list (fun _ => 0) unit Empty_set reader0 convert0
           1%positive "in" ["a"; "b"]%string (adder0 "RGPBC") 1 6 ∅ ∅).
  reflexivity.
Defined.
